(** * Nagma backend: authentication, session middleware and playlist routes

    A shallow embedding of the Express handlers of
    [backend/routes/auth.js], [backend/routes/playlists.js] and
    [backend/middlewares/authMiddleware.js], together with the Mongoose
    models they use.  Collections are lists of documents in insertion
    order; handlers are functions from a request and a database to a result
    and a database.  The handlers of [AuthRoutes] and [PlaylistRoutes]
    take a request whose ids Mongoose has cast to ObjectIds and whose
    password is a string; the handlers of [Http] take the request as it
    arrives, with the casts and the checks of the libraries that can make
    them throw. *)

From Stdlib Require Import ZArith String Ascii DecimalString.
From stdpp Require Import base list strings gmap sets.

Local Open Scope Z_scope.
Local Open Scope string_scope.
Local Open Scope list_scope.

Abbreviation ObjectId := string (only parsing).

(** ** What a handler does with a request *)

(** Errors thrown by the libraries the handlers call. *)
Inductive Error : Type :=
  | ValidationError (path : string)
  | DuplicateKey (path : string)
  | JsonWebTokenError
  | TokenExpiredError
  | TypeError
  | CastError (path : string)
  | LibraryError (library : string).

(** ** The models *)

(** [models/User.js] is not among the sources; the handlers use the fields
    [_id], [username] and [password] of its documents. *)
Module User.
Record doc : Type := mk
  { _id : ObjectId; username : string; password : string }.

(** [User.findOne({ username })]: the first document with that username. *)
Definition findOne (uname : string) (c : list doc) : option doc :=
  head (filter (λ d, username d = uname) c).

(** Whether the schema puts a unique index on [username] is decided in
    the missing file, so the handlers take it as a parameter.  The data
    model of the specification declares the username unique. *)
Class Schema : Type := { username_unique : bool }.

(** [doc.save()] of a new document.  The store rejects an [_id] it already
    holds and, with a unique index, a username it already holds. *)
Definition save `{Schema} (d : doc) (c : list doc) : Error + list doc :=
  if bool_decide (_id d ∈ _id <$> c) then inl (DuplicateKey "_id")
  else if username_unique && bool_decide (is_Some (findOne (username d) c))
  then inl (DuplicateKey "username")
  else inr (c ++ [d]).
End User.

(** [models/Song.js] *)
Module Song.
Record doc : Type := mk
  { _id : ObjectId; name : string; artist : string; genre : string;
    filePath : string }.

Definition findById (id : ObjectId) (c : list doc) : option doc :=
  head (filter (λ d, _id d = id) c).
End Song.

(** [models/Playlist.js]: [songs] is an array of song ids. *)
Module Playlist.
Record doc : Type := mk
  { _id : ObjectId; name : string; userId : ObjectId;
    songs : list ObjectId }.

(** A playlist whose [songs] path went through [populate('songs')]. *)
Record populated : Type := mkPopulated
  { p_id : ObjectId; p_name : string; p_userId : ObjectId;
    p_songs : list Song.doc }.

(** [name] is a required String: Mongoose rejects the empty string.
    [userId] is required too; the handlers always supply it. *)
Definition validate (d : doc) : option Error :=
  if decide (name d = "") then Some (ValidationError "name") else None.

(** [doc.save()] of a new document: validation first, then the insert,
    which the store rejects for an [_id] it already holds. *)
Definition save (d : doc) (c : list doc) : Error + list doc :=
  match validate d with
  | Some e => inl e
  | None =>
      if bool_decide (_id d ∈ _id <$> c) then inl (DuplicateKey "_id")
      else inr (c ++ [d])
  end.

(** [Playlist.find({ userId })] *)
Definition find (uid : ObjectId) (c : list doc) : list doc :=
  filter (λ d, userId d = uid) c.

(** The update operator [{ $addToSet: { songs: { $each: each } } }]:
    every element of [each] that the array does not hold yet is appended,
    in order. *)
Definition addToSet1 (arr : list ObjectId) (x : ObjectId) : list ObjectId :=
  if decide (x ∈ arr) then arr else arr ++ [x].

Definition addToSet (each : list ObjectId) (d : doc) : doc :=
  {| _id := _id d; name := name d; userId := userId d;
     songs := foldl addToSet1 (songs d) each |}.

(** [Playlist.findByIdAndUpdate(id, update, { new: true })]: the first
    document with that [_id] is updated and returned; [None] is the
    [null] Mongoose resolves to when there is none. *)
Fixpoint findByIdAndUpdate (id : ObjectId) (update : doc → doc)
    (c : list doc) : option doc * list doc :=
  match c with
  | [] => (None, [])
  | d :: c' =>
      if decide (_id d = id) then (Some (update d), update d :: c')
      else let '(r, c'') := findByIdAndUpdate id update c' in (r, d :: c'')
  end.

(** [Playlist.findByIdAndDelete(id)] *)
Fixpoint findByIdAndDelete (id : ObjectId) (c : list doc)
    : option doc * list doc :=
  match c with
  | [] => (None, [])
  | d :: c' =>
      if decide (_id d = id) then (Some d, c')
      else let '(r, c'') := findByIdAndDelete id c' in (r, d :: c'')
  end.

Definition findById (id : ObjectId) (c : list doc) : option doc :=
  head (filter (λ d, _id d = id) c).

(** [.populate('songs')]: each id is replaced by the song it refers to;
    ids that refer to no song are dropped. *)
Definition populate (catalog : list Song.doc) (d : doc) : populated :=
  {| p_id := _id d; p_name := name d; p_userId := userId d;
     p_songs := omap (λ id, Song.findById id catalog) (songs d) |}.
End Playlist.

(** The three collections. *)
Record DB : Type := mkDB
  { users : list User.doc; songs : list Song.doc;
    playlists : list Playlist.doc }.

(** ** The libraries *)

(** [process.env] *)
Class ProcessEnv : Type := { JWT_SECRET : string }.

(** [bcrypt]: [hash] draws a random salt, which is an argument here. *)
Module bcrypt.
Class Impl : Type :=
  { hash : string → string → nat → string;   (* salt, data, rounds *)
    compare : string → string → bool }.      (* data, encrypted *)
End bcrypt.

(** [jsonwebtoken].  The compact serialisation and its signature are the
    interface [Jws]; the claims [sign] adds and the checks [verify] makes
    on them are written out. *)
Module jwt.
Record payload : Type := mkPayload
  { userId : ObjectId; username : string; iat : Z; exp : Z }.

Class Jws : Type :=
  { jws_sign : payload → string → string;            (* payload, secret *)
    jws_verify : string → string → option payload }. (* token, secret *)

(** [Math.floor(Date.now() / 1000)], the clock being in milliseconds. *)
Definition timestamp (now : Z) : Z := now / 1000.

(** [ms('1h') / 1000] *)
Definition timespan_1h : Z := 3600.

(** The payload [sign] serialises: [iat] is the timestamp of the call and
    [exp] is [iat] plus the time span of [expiresIn]. *)
Definition claims (now : Z) (uid : ObjectId) (uname : string) : payload :=
  {| userId := uid; username := uname; iat := timestamp now;
     exp := timestamp now + timespan_1h |}.

(** [jwt.sign({ userId, username }, secret, { expiresIn: '1h' })] *)
Definition sign `{Jws} (now : Z) (uid : ObjectId) (uname : string)
    (secret : string) : string :=
  jws_sign (claims now uid uname) secret.

(** The serialisation carries payload [p] under [secret]: what was signed
    is what the holder of the secret reads back. *)
Definition faithful `{Jws} (p : payload) (secret : string) : Prop :=
  jws_verify (jws_sign p secret) secret = Some p.

(** [jwt.verify(token, secret)]: a token that is malformed or whose
    signature does not match throws [JsonWebTokenError]; one whose [exp]
    the clock has reached throws [TokenExpiredError]. *)
Definition verify `{Jws} (now : Z) (token secret : string)
    : Error + payload :=
  match jws_verify token secret with
  | None => inl JsonWebTokenError
  | Some p =>
      if decide (timestamp now >= exp p) then inl TokenExpiredError
      else inr p
  end.
End jwt.

(** ** Requests and responses *)

Module Req.
Record Body : Type := mkBody
  { username : string; password : string; name : string;
    songs : list ObjectId }.

(** [Authorization] is [req.header('Authorization')], [playlistId] is
    [req.params.playlistId], and [user] is what the middleware attaches. *)
Record t : Type := mk
  { Authorization : option string; playlistId : ObjectId; body : Body;
    user : option jwt.payload }.

Definition set_user (u : jwt.payload) (req : t) : t :=
  {| Authorization := Authorization req; playlistId := playlistId req;
     body := body req; user := Some u |}.
End Req.

(** The bodies the handlers pass to [res.json]. *)
Inductive ResBody : Type :=
  | Message (message : string)
  | MessageToken (message token : string)
  | MessagePlaylist (message : string) (playlist : Playlist.doc)
  | Playlists (l : list Playlist.populated)
  | PlaylistOrNull (p : option Playlist.populated).

Record Response : Type := mkResponse { status : Z; json : ResBody }.

(** A handler either sends a response or throws: the promise of the
    [async] handler rejects and the handler has sent nothing. *)
Inductive Outcome : Type :=
  | Sent (r : Response)
  | Thrown (e : Error).

(** [String.prototype.split] with a one-character separator. *)
Fixpoint split (sep : ascii) (s : string) : list string :=
  match s with
  | EmptyString => [""]
  | String c s' =>
      if decide (c = sep) then "" :: split sep s'
      else match split sep s' with
           | w :: ws => String c w :: ws
           | [] => [String c ""]
           end
  end.

(** ** [middlewares/authMiddleware.js] *)

Inductive Middleware : Type :=
  | Respond (r : Response)
  | Next (req : Req.t).

Section Middleware.
Context `{!jwt.Jws, !ProcessEnv}.

(** [req.header('Authorization')?.split(' ')[1]] *)
Definition extract_token (req : Req.t) : option string :=
  h ← Req.Authorization req; split " " h !! 1%nat.

Definition authMiddleware (now : Z) (req : Req.t) : Middleware :=
  match extract_token req with
  | None | Some "" =>
      Respond {| status := 401;
                 json := Message "No token provided, authorization denied" |}
  | Some token =>
      match jwt.verify now token JWT_SECRET with
      | inr decoded => Next (Req.set_user decoded req)
      | inl _ => Respond {| status := 401; json := Message "Invalid token" |}
      end
  end.

(** [router.METHOD(path, authMiddleware, handler)] *)
Definition protected (handler : Req.t → DB → Outcome * DB)
    (now : Z) (req : Req.t) (db : DB) : Outcome * DB :=
  match authMiddleware now req with
  | Respond r => (Sent r, db)
  | Next req' => handler req' db
  end.
End Middleware.

(** ** [routes/auth.js] *)

Module AuthRoutes.
Section Routes.
Context `{!jwt.Jws, !bcrypt.Impl, !ProcessEnv, !User.Schema}.

Definition with_users (us : list User.doc) (db : DB) : DB :=
  {| users := us; songs := songs db; playlists := playlists db |}.

(** [router.post('/register')].  [salt] is the salt [bcrypt.hash] draws
    and [newId] the [_id] the new document gets. *)
Definition register (salt : string) (newId : ObjectId) (req : Req.t)
    (db : DB) : Outcome * DB :=
  let username := Req.username (Req.body req) in
  let password := Req.password (Req.body req) in
  let hashedPassword := bcrypt.hash salt password 10 in
  let newUser := User.mk newId username hashedPassword in
  match User.save newUser (users db) with
  | inl e => (Thrown e, db)
  | inr us =>
      (Sent {| status := 201;
               json := Message "User registered successfully!" |},
       with_users us db)
  end.

Definition invalid_credentials : Response :=
  {| status := 400; json := Message "Invalid credentials" |}.

(** [router.post('/login')] for a password that is a string and a secret
    that is set; [Http.login] is the handler on any request. *)
Definition login (now : Z) (req : Req.t) (db : DB) : Outcome * DB :=
  let username := Req.username (Req.body req) in
  let password := Req.password (Req.body req) in
  match User.findOne username (users db) with
  | Some user =>
      if bcrypt.compare password (User.password user) then
        let token :=
          jwt.sign now (User._id user) (User.username user) JWT_SECRET in
        (Sent {| status := 200;
                 json := MessageToken "Login successful!" token |}, db)
      else (Sent invalid_credentials, db)
  | None => (Sent invalid_credentials, db)
  end.
End Routes.
End AuthRoutes.

(** ** [routes/playlists.js] *)

Module PlaylistRoutes.
Definition with_playlists (ps : list Playlist.doc) (db : DB) : DB :=
  {| users := users db; songs := songs db; playlists := ps |}.

(** [router.post('/')] for song ids that are ObjectIds; [Http.create] is
    the handler on any request.  [newId] is the [_id] the new document
    gets. *)
Definition create (newId : ObjectId) (req : Req.t) (db : DB)
    : Outcome * DB :=
  match Req.user req with
  | None => (Thrown TypeError, db)
  | Some user =>
      let newPlaylist :=
        Playlist.mk newId (Req.name (Req.body req)) (jwt.userId user)
          (Req.songs (Req.body req)) in
      match Playlist.save newPlaylist (playlists db) with
      | inl e => (Thrown e, db)
      | inr ps =>
          (Sent {| status := 201;
                   json := MessagePlaylist "Playlist created successfully!"
                             newPlaylist |},
           with_playlists ps db)
      end
  end.

(** [router.get('/')] *)
Definition listForOwner (req : Req.t) (db : DB) : Outcome * DB :=
  match Req.user req with
  | None => (Thrown TypeError, db)
  | Some user =>
      let found := Playlist.find (jwt.userId user) (playlists db) in
      (Sent {| status := 200;
               json := Playlists (Playlist.populate (songs db) <$> found) |},
       db)
  end.

(** [router.put('/:playlistId/songs')] for a playlist id and song ids that
    are ObjectIds; [Http.addSongs] is the handler on any request. *)
Definition addSongs (req : Req.t) (db : DB) : Outcome * DB :=
  let '(updated, ps) :=
    Playlist.findByIdAndUpdate (Req.playlistId req)
      (Playlist.addToSet (Req.songs (Req.body req))) (playlists db) in
  (Sent {| status := 200;
           json := PlaylistOrNull (Playlist.populate (songs db) <$> updated) |},
   with_playlists ps db).

(** [router.delete('/:playlistId')] for a playlist id that is an ObjectId;
    [Http.delete] is the handler on any request. *)
Definition delete (req : Req.t) (db : DB) : Outcome * DB :=
  let '(_, ps) :=
    Playlist.findByIdAndDelete (Req.playlistId req) (playlists db) in
  (Sent {| status := 200; json := Message "Playlist deleted successfully!" |},
   with_playlists ps db).
End PlaylistRoutes.

(** ** The handlers on requests as they arrive *)

(** Mongoose's cast of a string to an ObjectId: [None] for a string that
    does not denote one. *)
Class Cast : Type := { castObjectId : string → option ObjectId }.

Module Http.
(** [password] is [None] when the field is missing or is not a string;
    [songs] holds the strings of the array as they were sent. *)
Record Body : Type := mkBody
  { username : string; password : option string; name : string;
    songs : list string }.

(** [playlistId] is [req.params.playlistId], any string. *)
Record t : Type := mk
  { Authorization : option string; playlistId : string; body : Body;
    user : option jwt.payload }.

Definition set_user (u : option jwt.payload) (req : t) : t :=
  {| Authorization := Authorization req; playlistId := playlistId req;
     body := body req; user := u |}.

(** The request once its ids are cast. *)
Definition cast_request (id : ObjectId) (ss : list ObjectId) (req : t) : Req.t :=
  Req.mk (Authorization req) id
    (Req.mkBody (username (body req)) (default "" (password (body req)))
       (name (body req)) ss)
    (user req).

(** What the middleware reads of the request. *)
Definition headers (req : t) : Req.t := cast_request "" [] (set_user None req).

Section Routes.
Context `{!Cast, !jwt.Jws, !bcrypt.Impl, !ProcessEnv}.

(** [router.post('/login')].  [bcrypt.compare] throws for a password that
    is missing or not a string, and [jwt.sign] throws for a secret that is
    empty or not set; the handler catches neither, and [compare] is
    reached only when the user was found. *)
Definition login (now : Z) (req : t) (db : DB) : Outcome * DB :=
  match User.findOne (username (body req)) (users db) with
  | Some user =>
      match password (body req) with
      | None => (Thrown (LibraryError "bcrypt"), db)
      | Some password =>
          if bcrypt.compare password (User.password user) then
            if decide (JWT_SECRET = "") then
              (Thrown (LibraryError "jsonwebtoken"), db)
            else
              let token :=
                jwt.sign now (User._id user) (User.username user) JWT_SECRET in
              (Sent {| status := 200;
                       json := MessageToken "Login successful!" token |}, db)
          else (Sent AuthRoutes.invalid_credentials, db)
      end
  | None => (Sent AuthRoutes.invalid_credentials, db)
  end.

(** [router.post('/')] of the playlists.  Validation at [save] reports a
    song id that does not cast; the error names the first failing path of
    the schema. *)
Definition create (newId : ObjectId) (req : t) (db : DB) : Outcome * DB :=
  match user req with
  | None => (Thrown TypeError, db)
  | Some _ =>
      if decide (name (body req) = "") then
        (Thrown (ValidationError "name"), db)
      else
        match mapM castObjectId (songs (body req)) with
        | None => (Thrown (ValidationError "songs"), db)
        | Some ss => PlaylistRoutes.create newId (cast_request "" ss req) db
        end
  end.

(** [router.put('/:playlistId/songs')]: [findByIdAndUpdate] casts the id,
    then the update, and throws [CastError] when a cast fails. *)
Definition addSongs (req : t) (db : DB) : Outcome * DB :=
  match castObjectId (playlistId req) with
  | None => (Thrown (CastError "_id"), db)
  | Some id =>
      match mapM castObjectId (songs (body req)) with
      | None => (Thrown (CastError "songs"), db)
      | Some ss => PlaylistRoutes.addSongs (cast_request id ss req) db
      end
  end.

(** [router.delete('/:playlistId')]: [findByIdAndDelete] casts the id and
    throws [CastError] when the cast fails. *)
Definition delete (req : t) (db : DB) : Outcome * DB :=
  match castObjectId (playlistId req) with
  | None => (Thrown (CastError "_id"), db)
  | Some id => PlaylistRoutes.delete (cast_request id [] req) db
  end.

(** [router.METHOD(path, authMiddleware, handler)]: the middleware reads
    the [Authorization] header only. *)
Definition protected (handler : t → DB → Outcome * DB)
    (now : Z) (req : t) (db : DB) : Outcome * DB :=
  match authMiddleware now (headers req) with
  | Respond r => (Sent r, db)
  | Next req' => handler (set_user (Req.user req') req) db
  end.
End Routes.
End Http.

(** ** Reference implementations of the library interfaces

    Small executable instances, used to run the handlers on concrete
    requests.  The token has the three dot-separated parts of a JWT; its
    last part is the secret itself. *)

Module Reference.
Definition print_Z (z : Z) : string :=
  DecimalString.NilZero.string_of_int (Z.to_int z).

Definition parse_Z (s : string) : option Z :=
  Z.of_int <$> DecimalString.NilZero.int_of_string s.

Definition jws_sign (p : jwt.payload) (secret : string) : string :=
  "jws." +:+ jwt.userId p +:+ "," +:+ jwt.username p +:+ ","
    +:+ print_Z (jwt.iat p) +:+ "," +:+ print_Z (jwt.exp p)
    +:+ "." +:+ secret.

Definition jws_verify (token secret : string) : option jwt.payload :=
  match split "." token with
  | [h; claims; signature] =>
      if bool_decide (h = "jws") && bool_decide (signature = secret) then
        match split "," claims with
        | [uid; uname; i; e] =>
            i' ← parse_Z i; e' ← parse_Z e;
            Some (jwt.mkPayload uid uname i' e')
        | _ => None
        end
      else None
  | _ => None
  end.

Definition Jws : jwt.Jws :=
  {| jwt.jws_sign := jws_sign; jwt.jws_verify := jws_verify |}.

Definition hash (salt data : string) (rounds : nat) : string :=
  salt +:+ "$" +:+ data.

Definition compare (data encrypted : string) : bool :=
  match split "$" encrypted with
  | [_; d] => bool_decide (d = data)
  | _ => false
  end.

Definition Bcrypt : bcrypt.Impl :=
  {| bcrypt.hash := hash; bcrypt.compare := compare |}.

Definition Env : ProcessEnv := {| JWT_SECRET := "secret" |}.

Definition Unique : User.Schema := {| User.username_unique := true |}.
Definition NotUnique : User.Schema := {| User.username_unique := false |}.
End Reference.

(** ** Sample requests and stores *)

Module Sample.
Definition alice : jwt.payload := jwt.mkPayload "u1" "alice" 5 3605.
Definition bob : jwt.payload := jwt.mkPayload "u2" "bob" 7 3607.

(** A request as a handler behind the middleware sees it. *)
Definition request (caller : option jwt.payload) (id : ObjectId)
    (name : string) (songs : list ObjectId) : Req.t :=
  Req.mk None id (Req.mkBody "" "" name songs) caller.

(** A request as it arrives, with its [Authorization] header. *)
Definition arriving (header : option string) (id : ObjectId)
    (name : string) (songs : list ObjectId) : Req.t :=
  Req.mk header id (Req.mkBody "" "" name songs) None.

Definition credentials (username password : string) : Req.t :=
  Req.mk None "" (Req.mkBody username password "" []) None.

Definition chill : Playlist.doc := Playlist.mk "p1" "Chill" "u1" ["s0"].
Definition db_chill : DB := mkDB [] [] [chill].
Definition empty_db : DB := mkDB [] [] [].
End Sample.

(** A reference cast: the strings of 24 hexadecimal digits, read without
    regard to case. *)
Module ReferenceCast.
Definition is_hex (c : ascii) : bool :=
  let n := nat_of_ascii c in
  ((48 <=? n) && (n <=? 57) || (65 <=? n) && (n <=? 70)
   || (97 <=? n) && (n <=? 102))%nat.

Definition lower (c : ascii) : ascii :=
  let n := nat_of_ascii c in
  if ((65 <=? n) && (n <=? 70))%nat then ascii_of_nat (n + 32) else c.

Fixpoint all_hex (s : string) : bool :=
  match s with
  | EmptyString => true
  | String c s' => is_hex c && all_hex s'
  end.

Fixpoint lowercase (s : string) : string :=
  match s with
  | EmptyString => EmptyString
  | String c s' => String (lower c) (lowercase s')
  end.

Definition cast (s : string) : option ObjectId :=
  if (String.length s =? 24)%nat && all_hex s then Some (lowercase s)
  else None.

Definition instance : Cast := {| castObjectId := cast |}.
End ReferenceCast.

(** Sample requests as they arrive, and a store whose ids are ObjectIds. *)
Module HttpSample.
Definition alice_id : ObjectId := "00000000000000000000c001".
Definition bob_id : ObjectId := "00000000000000000000c002".
Definition chill_id : ObjectId := "00000000000000000000a001".
Definition song0 : ObjectId := "00000000000000000000b000".
Definition song9 : ObjectId := "00000000000000000000b009".

Definition alice : jwt.payload := jwt.mkPayload alice_id "alice" 5 3605.
Definition bob : jwt.payload := jwt.mkPayload bob_id "bob" 7 3607.

Definition request (caller : option jwt.payload) (id : string)
    (name : string) (songs : list string) : Http.t :=
  Http.mk None id (Http.mkBody "" None name songs) caller.

Definition arriving (header : option string) (id : string)
    (name : string) (songs : list string) : Http.t :=
  Http.mk header id (Http.mkBody "" None name songs) None.

Definition credentials (username : string) (password : option string)
    : Http.t :=
  Http.mk None "" (Http.mkBody username password "" []) None.

Definition intro : Song.doc := Song.mk song0 "Intro" "Luna Echo" "chill" "uploads/0.mp3".
Definition finale : Song.doc := Song.mk song9 "Finale" "Luna Echo" "chill" "uploads/9.mp3".
Definition chill : Playlist.doc := Playlist.mk chill_id "Chill" alice_id [song0].
Definition db : DB :=
  mkDB [User.mk alice_id "alice" "salt$pw1"] [intro; finale] [chill].
Definition NoSecret : ProcessEnv := {| JWT_SECRET := "" |}.

(** The token [sign] issues for alice at clock 5000 under the reference
    serialisation. *)
Definition token : string := "jws.00000000000000000000c001,alice,5,3605.secret".
Definition bearer : option string := Some ("Bearer " +:+ token).
End HttpSample.

(** ** Sequences of playlist operations *)

(** The three operations that change the playlist collection, each with
    the request its handler receives. *)
Inductive Op : Type :=
  | Create (newId : ObjectId) (req : Req.t)
  | AddSongs (req : Req.t)
  | Delete (req : Req.t).

Definition step (db : DB) (op : Op) : DB :=
  match op with
  | Create newId req => (PlaylistRoutes.create newId req db).2
  | AddSongs req => (PlaylistRoutes.addSongs req db).2
  | Delete req => (PlaylistRoutes.delete req db).2
  end.

Definition run (ops : list Op) (db : DB) : DB := foldl step db ops.

(** No playlist of the store holds the same song twice. *)
Definition songs_distinct (db : DB) : Prop :=
  ∀ p, p ∈ playlists db → NoDup (Playlist.songs p).

(** The store's [_id] index: no two playlists share an [_id]. *)
Definition ids_distinct (db : DB) : Prop :=
  NoDup (Playlist._id <$> playlists db).

(** Whether character [c] occurs in [s]. *)
Fixpoint occurs (c : ascii) (s : string) : bool :=
  match s with
  | EmptyString => false
  | String c' s' => bool_decide (c' = c) || occurs c s'
  end.

(** ** [routes/songs.js] *)

(** [path.join] of Node's [path] module. *)
Class Path : Type := { path_join : string → string → string }.

Module SongRoutes.
(** The uploaded file of a multipart request: its [originalname] and its
    bytes. *)
Record File : Type := mkFile { originalname : string; buffer : string }.

(** [name], [artist] and [genre] are fields of [req.body]; [audio] is the
    file part named [audio], if the request has one. *)
Record request : Type := mkRequest
  { name : string; artist : string; genre : string; audio : option File }.

(** The server: the database and the files under the working directory. *)
Record Server : Type := mkServer
  { store : DB; disk : gmap string string }.

Inductive error : Type :=
  | ValidationFailed (paths : list string)
  | DuplicateId
  | NoFile.

Inductive body : Type :=
  | MessageSong (message : string) (song : Song.doc)
  | Songs (l : list Song.doc).

Inductive outcome : Type :=
  | Sent (status : Z) (b : body)
  | Thrown (e : error).

(** The four paths of [songSchema] are required Strings; validation
    reports every path that is empty. *)
Definition validate (d : Song.doc) : list string :=
  (if decide (Song.name d = "") then ["name"] else [])
  ++ (if decide (Song.artist d = "") then ["artist"] else [])
  ++ (if decide (Song.genre d = "") then ["genre"] else [])
  ++ (if decide (Song.filePath d = "") then ["filePath"] else []).

(** [doc.save()] of a new song. *)
Definition save (d : Song.doc) (c : list Song.doc) : error + list Song.doc :=
  match validate d with
  | [] =>
      if bool_decide (Song._id d ∈ Song._id <$> c) then inl DuplicateId
      else inr (c ++ [d])
  | paths => inl (ValidationFailed paths)
  end.

Definition with_songs (ss : list Song.doc) (db : DB) : DB :=
  {| users := users db; songs := ss; playlists := playlists db |}.

Section Routes.
Context `{!Path}.

(** [upload.single('audio')] with the disk storage of the file: the
    destination is [uploads/], the file name is the original name, and the
    file is written there, over whatever was there.  The result is
    [req.file.path]. *)
Definition upload_single (req : request) (d : gmap string string)
    : option string * gmap string string :=
  match audio req with
  | Some f =>
      let path := path_join "uploads/" (originalname f) in
      (Some path, <[path := buffer f]> d)
  | None => (None, d)
  end.

(** [router.post('/', upload.single('audio'), handler)].  Without a file
    [req.file.path] is a [TypeError]. *)
Definition create (newId : ObjectId) (req : request) (s : Server)
    : outcome * Server :=
  let '(file, d) := upload_single req (disk s) in
  match file with
  | None => (Thrown NoFile, mkServer (store s) d)
  | Some filePath =>
      let newSong :=
        Song.mk newId (name req) (artist req) (genre req) filePath in
      match save newSong (songs (store s)) with
      | inl e => (Thrown e, mkServer (store s) d)
      | inr ss =>
          (Sent 201 (MessageSong "Song added successfully!" newSong),
           mkServer (with_songs ss (store s)) d)
      end
  end.
End Routes.

(** [router.get('/')] *)
Definition list_all (s : Server) : outcome * Server :=
  (Sent 200 (Songs (songs (store s))), s).
End SongRoutes.

(** ** [frontend/src/component/SongCarousel.js] *)

Module SongCarousel.
Record song : Type := mkSong
  { imageUrl : string; songName : string; artistName : string;
    audioUrl : string }.

(** The numbers the component computes with: integers, and [NaN]. *)
Inductive number : Type :=
  | Num (z : Z)
  | NaN.

Definition add (a b : number) : number :=
  match a, b with
  | Num x, Num y => Num (x + y)
  | _, _ => NaN
  end.

Definition sub (a b : number) : number :=
  match a, b with
  | Num x, Num y => Num (x - y)
  | _, _ => NaN
  end.

(** The remainder operator [%]: the sign is the dividend's, and the
    remainder by zero is [NaN]. *)
Definition rem (a b : number) : number :=
  match a, b with
  | Num x, Num y => if decide (y = 0) then NaN else Num (Z.rem x y)
  | _, _ => NaN
  end.

(** [songs[i]] *)
Definition at_index (songs : list song) (i : number) : option song :=
  match i with
  | Num z => if decide (0 <= z) then songs !! Z.to_nat z else None
  | NaN => None
  end.

Definition length_of (songs : list song) : number :=
  Num (Z.of_nat (length songs)).

(** The state of the component: [currentSong] is [None] for [null] and
    for [undefined]. *)
Record state : Type := mkState
  { songs : list song; currentSong : option song;
    currentSongIndex : number }.

Definition initial : state := mkState [] None (Num 0).

Definition setSongs (l : list song) (st : state) : state :=
  mkState l (currentSong st) (currentSongIndex st).

Definition handlePlay (s : song) (index : number) (st : state) : state :=
  mkState (songs st) (Some s) index.

Definition handleNextSong (st : state) : state :=
  let nextIndex :=
    rem (add (currentSongIndex st) (Num 1)) (length_of (songs st)) in
  mkState (songs st) (at_index (songs st) nextIndex) nextIndex.

Definition handlePreviousSong (st : state) : state :=
  let previousIndex :=
    rem (add (sub (currentSongIndex st) (Num 1)) (length_of (songs st)))
      (length_of (songs st)) in
  mkState (songs st) (at_index (songs st) previousIndex) previousIndex.

(** What the user can do: press play on the card at position [i] of
    [songs.slice(0, 10)], or press next or previous on the player, which
    is rendered only while [currentSong] is set. *)
Inductive action : Type :=
  | PlayCard (i : nat)
  | NextSong
  | PreviousSong.

Definition act (st : state) (a : action) : state :=
  match a with
  | PlayCard i =>
      match take 10 (songs st) !! i with
      | Some s => handlePlay s (Num (Z.of_nat i)) st
      | None => st
      end
  | NextSong =>
      match currentSong st with
      | Some _ => handleNextSong st
      | None => st
      end
  | PreviousSong =>
      match currentSong st with
      | Some _ => handlePreviousSong st
      | None => st
      end
  end.

(** The player shows the song at the current index of the list. *)
Definition in_sync (st : state) : Prop :=
  match currentSong st with
  | None => True
  | Some s =>
      ∃ i : nat, currentSongIndex st = Num (Z.of_nat i)
                 ∧ songs st !! i = Some s
  end.
End SongCarousel.

(** ** The session kept in the browser: [Login], [Navbar], [HeroSection] *)

Module Session.
(** What [fetch] and [response.json()] give [handleLogin]: a rejection
    with its message, or a response with its [ok] flag and the [token] of
    its body. *)
Inductive fetched : Type :=
  | Rejected (message : string)
  | Responded (ok : bool) (token : string).

(** [handleLogin] of [Login]: the new [localStorage] and the error
    shown, if any. *)
Definition handleLogin (username : string) (r : fetched)
    (localStorage : gmap string string)
    : gmap string string * option string :=
  match r with
  | Rejected message => (localStorage, Some message)
  | Responded false _ =>
      (localStorage, Some "Login failed! Invalid credentials.")
  | Responded true token =>
      (<["username" := username]> (<["token" := token]> localStorage), None)
  end.

(** The effect of [Navbar] on mount: [isLoggedIn] and [username]. *)
Definition navbar_mount (localStorage : gmap string string) : bool * string :=
  let token := localStorage !! "token" in
  let storedUsername := localStorage !! "username" in
  (match token with Some "" | None => false | Some _ => true end,
   match storedUsername with Some "" | None => "" | Some u => u end).

(** [handleLogout] of [Navbar]: the new [localStorage], [isLoggedIn] and
    [username]. *)
Definition handleLogout (localStorage : gmap string string)
    : gmap string string * (bool * string) :=
  (delete "username" (delete "token" localStorage), (false, "")).

(** The effect of [HeroSection] on mount at hour [currentHour]: the
    greeting, empty when none is set. *)
Definition hero_mount (currentHour : Z) (localStorage : gmap string string)
    : string :=
  match localStorage !! "username" with
  | Some "" | None => ""
  | Some storedUsername =>
      if decide (currentHour < 12) then "Good Morning, " +:+ storedUsername
      else if decide (currentHour < 18)
      then "Good Afternoon, " +:+ storedUsername
      else "Good Evening, " +:+ storedUsername
  end.

(** The [fetch] of [handleLogin] answered by the login route: the page
    sends the two strings it holds; [ok] is a status from 200 to 299, and
    [token] is the field of the body, which reads [undefined] when the
    body has none.  [None]: the route sent nothing. *)
Definition fetch_login `{!jwt.Jws, !bcrypt.Impl, !ProcessEnv}
    (now : Z) (username password : string) (db : DB) : option fetched :=
  match (Http.login now
           (Http.mk None "" (Http.mkBody username (Some password) "" []) None)
           db).1 with
  | Sent {| status := st; json := MessageToken _ token |} =>
      Some (Responded (bool_decide (200 <= st < 300)) token)
  | Sent {| status := st; json := _ |} =>
      Some (Responded (bool_decide (200 <= st < 300)) "undefined")
  | Thrown _ => None
  end.
End Session.

(** A reference [path.join] for plain file names. *)
Definition reference_path : Path := {| path_join := String.append |}.

(** Sample uploads. *)
Module SongSample.
Definition tune : SongRoutes.File := SongRoutes.mkFile "tune.mp3" "first bytes".
Definition retake : SongRoutes.File := SongRoutes.mkFile "tune.mp3" "other bytes".
Definition upload (name : string) (f : SongRoutes.File) : SongRoutes.request :=
  SongRoutes.mkRequest name "Luna Echo" "chill" (Some f).
Definition server : SongRoutes.Server := SongRoutes.mkServer Sample.empty_db ∅.
Definition song1 : Song.doc :=
  Song.mk "s1" "Tune" "Luna Echo" "chill" "uploads/tune.mp3".
Definition song2 : Song.doc :=
  Song.mk "s2" "Retake" "Luna Echo" "chill" "uploads/tune.mp3".
Definition server1 : SongRoutes.Server :=
  SongRoutes.mkServer (mkDB [] [song1] [])
    (<["uploads/tune.mp3" := "first bytes"]> ∅).
Definition server2 : SongRoutes.Server :=
  SongRoutes.mkServer (mkDB [] [song1; song2] [])
    (<["uploads/tune.mp3" := "other bytes"]>
       (<["uploads/tune.mp3" := "first bytes"]> ∅)).
End SongSample.

(** A carousel with three songs, the second one playing. *)
Module CarouselSample.
Definition beats : SongCarousel.song :=
  SongCarousel.mkSong "song_img.png" "Blissful Beats" "DJ Melody" "1.mp3".
Definition vibes : SongCarousel.song :=
  SongCarousel.mkSong "song_img.png" "Chill Vibes" "The Harmonizers" "2.mp3".
Definition days : SongCarousel.song :=
  SongCarousel.mkSong "song_img.png" "Sunny Days" "Ray Sun" "3.mp3".
Definition playing : SongCarousel.state :=
  SongCarousel.mkState [beats; vibes; days] (Some vibes) (SongCarousel.Num 1).
End CarouselSample.

(** ** Running the model *)

Example split_bearer : split " " "Bearer abc" = ["Bearer"; "abc"].
Proof. reflexivity. Qed.

Example split_double_space : split " " "Bearer  abc" = ["Bearer"; ""; "abc"].
Proof. reflexivity. Qed.

Example split_empty : split " " "" = [""].
Proof. reflexivity. Qed.

Example reference_token :
  jwt.sign (H := Reference.Jws) 5000 "u1" "alice" "secret"
  = "jws.u1,alice,5,3605.secret".
Proof. vm_compute. reflexivity. Qed.

Example reference_verify :
  jwt.verify (H := Reference.Jws) 5000 "jws.u1,alice,5,3605.secret" "secret"
  = inr (jwt.mkPayload "u1" "alice" 5 3605).
Proof. vm_compute. reflexivity. Qed.

(** ** Facts about the models *)

Section AddToSet.
Implicit Types (arr each : list ObjectId) (x : ObjectId).

Lemma elem_of_addToSet1 arr x y :
  y ∈ Playlist.addToSet1 arr x ↔ y ∈ arr ∨ y = x.
Proof.
  unfold Playlist.addToSet1. case_decide as Hin.
  - split; [by left | intros [? | ->]; done].
  - rewrite elem_of_app, list_elem_of_singleton. done.
Qed.

Lemma NoDup_addToSet1 arr x : NoDup arr → NoDup (Playlist.addToSet1 arr x).
Proof.
  intros Hnd. unfold Playlist.addToSet1. case_decide as Hin; [done |].
  apply NoDup_app. split_and!; [done | | apply NoDup_singleton].
  intros y Hy ->%list_elem_of_singleton. done.
Qed.

Lemma elem_of_addToSet_each each : ∀ arr y,
  y ∈ foldl Playlist.addToSet1 arr each ↔ y ∈ arr ∨ y ∈ each.
Proof.
  induction each as [| x each IH]; intros arr y; simpl.
  - rewrite elem_of_nil. tauto.
  - rewrite IH, elem_of_addToSet1, elem_of_cons. tauto.
Qed.

Lemma NoDup_addToSet_each each : ∀ arr,
  NoDup arr → NoDup (foldl Playlist.addToSet1 arr each).
Proof.
  induction each as [| x each IH]; intros arr Hnd; simpl; [done |].
  by apply IH, NoDup_addToSet1.
Qed.

(** The songs already in the array stay where they are. *)
Lemma addToSet_each_prefix each : ∀ arr,
  arr `prefix_of` foldl Playlist.addToSet1 arr each.
Proof.
  induction each as [| x each IH]; intros arr; simpl; [done |].
  etrans; [| apply IH]. unfold Playlist.addToSet1.
  case_decide; [done | by apply prefix_app_r].
Qed.

Lemma list_to_set_addToSet_each arr each :
  list_to_set (foldl Playlist.addToSet1 arr each)
  =@{gset ObjectId} list_to_set arr ∪ list_to_set each.
Proof.
  apply set_eq. intros y.
  rewrite elem_of_union, !elem_of_list_to_set. apply elem_of_addToSet_each.
Qed.
End AddToSet.

Section Collection.
Implicit Types (c : list Playlist.doc) (id : ObjectId).

Lemma findById_id id c d :
  Playlist.findById id c = Some d → Playlist._id d = id.
Proof.
  unfold Playlist.findById. intros Hfind%head_Some_elem_of.
  by apply list_elem_of_filter in Hfind as [? _].
Qed.

Lemma findByIdAndUpdate_found id update c d :
  Playlist.findById id c = Some d →
  (∀ e, Playlist._id (update e) = Playlist._id e) →
  ∃ c', Playlist.findByIdAndUpdate id update c = (Some (update d), c')
        ∧ Playlist.findById id c' = Some (update d).
Proof.
  unfold Playlist.findById. intros Hfind Hid.
  induction c as [| e c IH]; simpl in *; [done |].
  rewrite filter_cons in Hfind. destruct (decide (Playlist._id e = id)) as [He | He].
  - simpl in Hfind. simplify_eq. eexists. split; [done |].
    rewrite filter_cons. by rewrite decide_True by (by rewrite Hid).
  - destruct (IH Hfind) as (c' & -> & Hc'). eexists. split; [done |].
    rewrite filter_cons. by rewrite decide_False.
Qed.

Lemma findByIdAndUpdate_missing id update c :
  Playlist.findById id c = None →
  Playlist.findByIdAndUpdate id update c = (None, c).
Proof.
  unfold Playlist.findById. intros Hfind.
  induction c as [| e c IH]; simpl in *; [done |].
  rewrite filter_cons in Hfind. destruct (decide (Playlist._id e = id)); [done |].
  by rewrite IH.
Qed.

Lemma findByIdAndDelete_missing id c :
  Playlist.findById id c = None →
  Playlist.findByIdAndDelete id c = (None, c).
Proof.
  unfold Playlist.findById. intros Hfind.
  induction c as [| e c IH]; simpl in *; [done |].
  rewrite filter_cons in Hfind. destruct (decide (Playlist._id e = id)); [done |].
  by rewrite IH.
Qed.
End Collection.

(** ** Adding songs *)

(** C1 (as amended).  Two successive [addSongs] on a stored playlist leave
    it with exactly the songs it had, those of the first request and those
    of the second; the second response is 200 with that playlist; no
    duplicate is introduced when the playlist had none; and for a playlist
    that had no songs the result is the union of the two requests, without
    duplicates. *)
Theorem addSongs_twice_union (db : DB) (req1 req2 : Req.t) (p : Playlist.doc) :
  Playlist.findById (Req.playlistId req1) (playlists db) = Some p →
  Req.playlistId req2 = Req.playlistId req1 →
  ∃ p' db2,
    PlaylistRoutes.addSongs req2 (PlaylistRoutes.addSongs req1 db).2
    = (Sent {| status := 200;
               json := PlaylistOrNull (Some (Playlist.populate (songs db) p')) |},
       db2)
    ∧ Playlist.findById (Req.playlistId req1) (playlists db2) = Some p'
    ∧ list_to_set (Playlist.songs p')
      =@{gset ObjectId}
      list_to_set (Playlist.songs p) ∪ list_to_set (Req.songs (Req.body req1))
        ∪ list_to_set (Req.songs (Req.body req2))
    ∧ (NoDup (Playlist.songs p) → NoDup (Playlist.songs p'))
    ∧ (Playlist.songs p = [] →
       list_to_set (Playlist.songs p')
       =@{gset ObjectId}
       list_to_set (Req.songs (Req.body req1))
         ∪ list_to_set (Req.songs (Req.body req2))
       ∧ NoDup (Playlist.songs p')).
Proof.
  intros Hp Hid.
  set (S1 := Req.songs (Req.body req1)). set (S2 := Req.songs (Req.body req2)).
  destruct (findByIdAndUpdate_found (Req.playlistId req1)
              (Playlist.addToSet S1) _ p Hp) as (c1 & Hc1 & Hp1); [done |].
  destruct (findByIdAndUpdate_found (Req.playlistId req1)
              (Playlist.addToSet S2) c1 _ Hp1) as (c2 & Hc2 & Hp2); [done |].
  set (p' := Playlist.addToSet S2 (Playlist.addToSet S1 p)) in *.
  assert (Hset : list_to_set (Playlist.songs p')
                 =@{gset ObjectId}
                 list_to_set (Playlist.songs p) ∪ list_to_set S1 ∪ list_to_set S2).
  { subst p'. simpl. by rewrite !list_to_set_addToSet_each. }
  assert (Hnd : NoDup (Playlist.songs p) → NoDup (Playlist.songs p')).
  { intros Hnd. subst p'. simpl. by do 2 apply NoDup_addToSet_each. }
  exists p', (PlaylistRoutes.with_playlists c2
                (PlaylistRoutes.with_playlists c1 db)).
  split_and!; [| done | done | done |].
  - unfold PlaylistRoutes.addSongs at 2. fold S1. rewrite Hc1. simpl.
    unfold PlaylistRoutes.addSongs. rewrite Hid. fold S2. simpl.
    by rewrite Hc2.
  - intros Hnil. split.
    + rewrite Hset, Hnil, list_to_set_nil. by rewrite (left_id_L ∅ (∪)).
    + apply Hnd. rewrite Hnil. constructor.
Qed.

Lemma addSongs_twice_union_witness :
  ∃ p' db2,
    PlaylistRoutes.addSongs (Sample.request (Some Sample.bob) "p1" "" ["s2"; "s3"])
      (PlaylistRoutes.addSongs
         (Sample.request (Some Sample.bob) "p1" "" ["s1"; "s2"])
         Sample.db_chill).2
    = (Sent {| status := 200;
               json := PlaylistOrNull (Some (Playlist.populate [] p')) |}, db2)
    ∧ Playlist.findById "p1" (playlists db2) = Some p'
    ∧ NoDup (Playlist.songs p').
Proof.
  destruct (addSongs_twice_union Sample.db_chill
              (Sample.request (Some Sample.bob) "p1" "" ["s1"; "s2"])
              (Sample.request (Some Sample.bob) "p1" "" ["s2"; "s3"])
              Sample.chill eq_refl eq_refl)
    as (p' & db2 & Hout & Hfind & _ & Hnd & _).
  exists p', db2. split_and!; [exact Hout | exact Hfind |].
  apply Hnd. apply NoDup_singleton.
Defined.

(** C1 (as stated) fails: the songs the playlist already holds stay in it,
    so the result is not the union of the two requests alone; and a
    playlist that holds a song twice still holds it twice afterwards. *)
Lemma addSongs_twice_keeps_existing :
  let req1 := Sample.request (Some Sample.alice) "p1" "" ["s1"] in
  let req2 := Sample.request (Some Sample.alice) "p1" "" ["s2"] in
  let db2 := (PlaylistRoutes.addSongs req2
                (PlaylistRoutes.addSongs req1 Sample.db_chill).2).2 in
  let twice := mkDB [] [] [Playlist.mk "p1" "Chill" "u1" ["s0"; "s0"]] in
  let twice2 := (PlaylistRoutes.addSongs req2
                   (PlaylistRoutes.addSongs req1 twice).2).2 in
  Playlist.songs <$> Playlist.findById "p1" (playlists db2)
  = Some ["s0"; "s1"; "s2"]
  ∧ list_to_set ["s0"; "s1"; "s2"]
    ≠@{gset ObjectId} list_to_set ["s1"] ∪ list_to_set ["s2"]
  ∧ Playlist.songs <$> Playlist.findById "p1" (playlists twice2)
    = Some ["s0"; "s0"; "s1"; "s2"].
Proof.
  split_and!; [vm_compute; reflexivity | | vm_compute; reflexivity].
  intros Heq. assert (Hin : "s0" ∈@{gset ObjectId} list_to_set ["s0"; "s1"; "s2"])
    by set_solver.
  rewrite Heq in Hin. set_solver.
Qed.

(** ** The no-duplicate invariant *)

Lemma findByIdAndUpdate_elem (id : ObjectId) (update : Playlist.doc → Playlist.doc)
    (c : list Playlist.doc) (p : Playlist.doc) :
  p ∈ (Playlist.findByIdAndUpdate id update c).2 →
  p ∈ c ∨ ∃ d, d ∈ c ∧ p = update d.
Proof.
  induction c as [| e c IH]; simpl; [by left |].
  destruct (decide (Playlist._id e = id)) as [He | He]; simpl.
  - intros [-> | Hp]%elem_of_cons.
    + right. exists e. split; [apply list_elem_of_here | done].
    + left. by apply list_elem_of_further.
  - destruct (Playlist.findByIdAndUpdate id update c) as [r c'] eqn:Hc. simpl in *.
    intros [-> | Hp]%elem_of_cons.
    + left. apply list_elem_of_here.
    + destruct (IH Hp) as [Hin | (d & Hd & ->)].
      * left. by apply list_elem_of_further.
      * right. exists d. split; [by apply list_elem_of_further | done].
Qed.

Lemma findByIdAndDelete_elem (id : ObjectId) (c : list Playlist.doc)
    (p : Playlist.doc) :
  p ∈ (Playlist.findByIdAndDelete id c).2 → p ∈ c.
Proof.
  induction c as [| e c IH]; simpl; [done |].
  destruct (decide (Playlist._id e = id)) as [He | He]; simpl.
  - apply list_elem_of_further.
  - destruct (Playlist.findByIdAndDelete id c) as [r c'] eqn:Hc. simpl in *.
    intros [-> | Hp]%elem_of_cons; [apply list_elem_of_here |].
    by apply list_elem_of_further, IH.
Qed.

(** A successful [create] stores the supplied list of songs as it is. *)
Lemma create_elem (newId : ObjectId) (req : Req.t) (db : DB) (p : Playlist.doc) :
  p ∈ playlists (PlaylistRoutes.create newId req db).2 →
  p ∈ playlists db ∨ Playlist.songs p = Req.songs (Req.body req).
Proof.
  unfold PlaylistRoutes.create.
  destruct (Req.user req) as [u |]; [| by left].
  unfold Playlist.save. destruct (Playlist.validate _); [by left |].
  case_bool_decide; [by left |]. simpl.
  intros [Hp | ->%list_elem_of_singleton]%elem_of_app; [by left | by right].
Qed.

Lemma step_songs_distinct (db : DB) (op : Op) :
  (∀ newId req, op = Create newId req → NoDup (Req.songs (Req.body req))) →
  songs_distinct db → songs_distinct (step db op).
Proof.
  intros Hop Hdb p. destruct op as [newId req | req | req]; simpl.
  - intros [Hp | Heq]%create_elem; [by apply Hdb |].
    rewrite Heq. by apply (Hop newId req).
  - unfold PlaylistRoutes.addSongs.
    destruct (Playlist.findByIdAndUpdate _ _ _) as [r c'] eqn:Hc. simpl.
    intros Hp. assert (Hp' : p ∈ (Playlist.findByIdAndUpdate (Req.playlistId req)
      (Playlist.addToSet (Req.songs (Req.body req))) (playlists db)).2)
      by (by rewrite Hc).
    apply findByIdAndUpdate_elem in Hp' as [Hin | (d & Hd & ->)];
      [by apply Hdb |].
    simpl. by apply NoDup_addToSet_each, Hdb.
  - unfold PlaylistRoutes.delete.
    destruct (Playlist.findByIdAndDelete _ _) as [r c'] eqn:Hc. simpl.
    intros Hp. apply Hdb, (findByIdAndDelete_elem (Req.playlistId req)).
    by rewrite Hc.
Qed.

(** C2 (as amended).  [addSongs] and [delete] never introduce a duplicate
    and [create] stores the supplied list as it is: from a store whose
    playlists hold no song twice, every sequence of operations whose
    [create] requests carry duplicate-free lists leads to such a store. *)
Theorem run_songs_distinct (ops : list Op) (db : DB) :
  songs_distinct db →
  (∀ newId req, Create newId req ∈ ops → NoDup (Req.songs (Req.body req))) →
  songs_distinct (run ops db).
Proof.
  revert db. induction ops as [| op ops IH]; intros db Hdb Hops; [done |].
  unfold run. simpl. apply IH.
  - apply step_songs_distinct; [| done].
    intros newId req ->. apply (Hops newId), list_elem_of_here.
  - intros newId req Hin. by apply (Hops newId), list_elem_of_further.
Qed.

Lemma run_songs_distinct_witness :
  songs_distinct
    (run [Create "p2" (Sample.request (Some Sample.alice) "" "Mix" ["s1"; "s2"]);
          AddSongs (Sample.request (Some Sample.bob) "p2" "" ["s2"; "s2"; "s3"]);
          Delete (Sample.request (Some Sample.bob) "p1" "" [])]
       Sample.db_chill).
Proof.
  apply run_songs_distinct.
  - intros p ->%list_elem_of_singleton. apply NoDup_singleton.
  - intros newId req [Heq | Hin]%elem_of_cons.
    + injection Heq as -> ->. cbn. apply NoDup_cons.
      split; [| apply NoDup_singleton].
      intros ?%list_elem_of_singleton. discriminate.
    + apply elem_of_cons in Hin as [Heq | Hin]; [discriminate |].
      apply list_elem_of_singleton in Hin. discriminate.
Defined.

(** C2 (as stated) fails: [create] with a list that repeats a song stores
    the repeat. *)
Lemma create_stores_repeats :
  let req := Sample.request (Some Sample.alice) "" "Chill" ["s1"; "s1"] in
  playlists (run [Create "p1" req] Sample.empty_db)
  = [Playlist.mk "p1" "Chill" "u1" ["s1"; "s1"]]
  ∧ ¬ songs_distinct (run [Create "p1" req] Sample.empty_db).
Proof.
  split; [vm_compute; reflexivity |].
  intros Hinv.
  specialize (Hinv (Playlist.mk "p1" "Chill" "u1" ["s1"; "s1"])).
  assert (Hnd : NoDup ["s1"; "s1"]) by (apply Hinv; vm_compute; apply list_elem_of_here).
  apply NoDup_cons_1_1 in Hnd. apply Hnd, list_elem_of_here.
Qed.

(** ** Listing, and mutation by any caller *)

(** C8.  For a caller the middleware has identified, [listForOwner]
    answers 200 with the populated forms of stored playlists whose
    [userId] is the caller's, and of no other playlist; the store is left
    as it was. *)
Theorem listForOwner_only_owner (req : Req.t) (u : jwt.payload) (db : DB) :
  Req.user req = Some u →
  ∃ l, PlaylistRoutes.listForOwner req db
       = (Sent {| status := 200; json := Playlists l |}, db)
       ∧ ∀ q, q ∈ l →
           Playlist.p_userId q = jwt.userId u
           ∧ ∃ d, d ∈ playlists db ∧ Playlist.userId d = jwt.userId u
                  ∧ q = Playlist.populate (songs db) d.
Proof.
  intros Hu. unfold PlaylistRoutes.listForOwner. rewrite Hu.
  eexists. split; [done |].
  intros q (d & -> & Hd)%list_elem_of_fmap.
  apply list_elem_of_filter in Hd as [Hown Hd]. eauto.
Qed.

Lemma listForOwner_only_owner_witness :
  ∃ l, PlaylistRoutes.listForOwner
         (Sample.request (Some Sample.bob) "" "" []) Sample.db_chill
       = (Sent {| status := 200; json := Playlists l |}, Sample.db_chill)
       ∧ ∀ q, q ∈ l → Playlist.p_userId q = "u2".
Proof.
  destruct (listForOwner_only_owner
              (Sample.request (Some Sample.bob) "" "" []) Sample.bob
              Sample.db_chill eq_refl) as (l & Hl & Hown).
  exists l. split; [exact Hl |]. intros q Hq. by apply Hown.
Defined.

Lemma findById_None (id : ObjectId) (c : list Playlist.doc) :
  id ∉ Playlist._id <$> c → Playlist.findById id c = None.
Proof.
  unfold Playlist.findById. induction c as [| e c IH]; [done |].
  rewrite fmap_cons, not_elem_of_cons. intros [Hne Hc].
  rewrite filter_cons, decide_False by done. by apply IH.
Qed.

Lemma findByIdAndDelete_found (id : ObjectId) (c : list Playlist.doc)
    (d : Playlist.doc) :
  Playlist.findById id c = Some d →
  NoDup (Playlist._id <$> c) →
  ∃ c', Playlist.findByIdAndDelete id c = (Some d, c')
        ∧ Playlist.findById id c' = None
        ∧ length c = S (length c').
Proof.
  unfold Playlist.findById. intros Hfind Hnd.
  induction c as [| e c IH]; simpl in *; [done |].
  rewrite filter_cons in Hfind. apply NoDup_cons in Hnd as [He Hnd].
  destruct (decide (Playlist._id e = id)) as [Heq | Hne].
  - simpl in Hfind. simplify_eq. eexists. split_and!; [done | | done].
    by apply findById_None.
  - destruct (IH Hfind Hnd) as (c' & -> & Hnone & Hlen).
    eexists. split_and!; [done | | by rewrite Hlen].
    rewrite filter_cons. by rewrite decide_False.
Qed.

(** ** Tokens *)

Section Tokens.
Context `{!jwt.Jws}.

Lemma timestamp_before (t e : Z) : t < e * 1000 ↔ ¬ (jwt.timestamp t >= e).
Proof. unfold jwt.timestamp. Z.div_mod_to_equations. lia. Qed.

Lemma verify_signed (t : Z) (p : jwt.payload) (secret : string) :
  jwt.faithful p secret →
  jwt.verify t (jwt.jws_sign p secret) secret
  = if decide (jwt.timestamp t >= jwt.exp p) then inl TokenExpiredError
    else inr p.
Proof. intros Hf. unfold jwt.verify. by rewrite Hf. Qed.

(** C7.  A token [sign] issues at clock [now] carries [iat = ⌊now/1000⌋]
    and [exp = iat + 3600]; [verify] returns its payload at the instant of
    issue and at every instant before [exp] (in milliseconds,
    [exp * 1000]), and throws [TokenExpiredError] at every instant from
    [exp] on. *)
Theorem token_lifetime (now : Z) (uid : ObjectId) (uname secret : string) :
  jwt.faithful (jwt.claims now uid uname) secret →
  ∃ p, jwt.jws_verify (jwt.sign now uid uname secret) secret = Some p
       ∧ jwt.iat p = jwt.timestamp now
       ∧ jwt.exp p = jwt.iat p + 3600
       ∧ jwt.verify now (jwt.sign now uid uname secret) secret = inr p
       ∧ (∀ t : Z, t < jwt.exp p * 1000 →
            jwt.verify t (jwt.sign now uid uname secret) secret = inr p)
       ∧ (∀ t : Z, jwt.exp p * 1000 <= t →
            jwt.verify t (jwt.sign now uid uname secret) secret
            = inl TokenExpiredError).
Proof.
  intros Hf. exists (jwt.claims now uid uname). unfold jwt.sign.
  assert (Hbefore : ∀ t : Z, t < jwt.exp (jwt.claims now uid uname) * 1000 →
            jwt.verify t (jwt.jws_sign (jwt.claims now uid uname) secret) secret
            = inr (jwt.claims now uid uname)).
  { intros t Ht%timestamp_before.
    by rewrite verify_signed, decide_False. }
  split_and!; [exact Hf | done | done | | exact Hbefore |].
  - apply Hbefore. simpl. unfold jwt.timestamp, jwt.timespan_1h.
    Z.div_mod_to_equations. lia.
  - intros t Ht. rewrite verify_signed by done.
    case_decide as Hn; [done |]. apply timestamp_before in Hn. lia.
Qed.
End Tokens.

Lemma token_lifetime_witness :
  ∃ p, @jwt.jws_verify Reference.Jws
         (jwt.sign (H := Reference.Jws) 5000 "u1" "alice" "secret") "secret"
       = Some p
       ∧ jwt.exp p = 3605
       ∧ jwt.verify (H := Reference.Jws) 3604999
           (jwt.sign (H := Reference.Jws) 5000 "u1" "alice" "secret") "secret"
         = inr p
       ∧ jwt.verify (H := Reference.Jws) 3605000
           (jwt.sign (H := Reference.Jws) 5000 "u1" "alice" "secret") "secret"
         = inl TokenExpiredError.
Proof.
  destruct (@token_lifetime Reference.Jws 5000 "u1" "alice" "secret")
    as (p & Hp & Hiat & Hexp & _ & Hbefore & Hafter).
  { vm_compute. reflexivity. }
  assert (Hp' : p = jwt.mkPayload "u1" "alice" 5 3605).
  { vm_compute in Hp. by injection Hp as <-. }
  exists p. split_and!; [exact Hp | | |].
  - rewrite Hp'. reflexivity.
  - apply Hbefore. rewrite Hp'. reflexivity.
  - apply Hafter. rewrite Hp'. discriminate.
Defined.

(** ** Registration and login *)

Lemma findOne_snoc (uname : string) (c : list User.doc) (d : User.doc) :
  User.findOne uname c = None → User.username d = uname →
  User.findOne uname (c ++ [d]) = Some d.
Proof.
  unfold User.findOne. intros Hnone%head_None Hd.
  rewrite filter_app, Hnone. simpl.
  rewrite filter_cons, decide_True by done. done.
Qed.

Section Auth.
Context `{!jwt.Jws, !bcrypt.Impl, !ProcessEnv, !User.Schema}.

(** C3.  For a username the store does not hold yet (and a fresh [_id]),
    [register] answers 201, a following [login] with the same
    credentials answers 200 with a token, and [verify] decodes that token
    to a payload whose [username] is the registered one.  The two library
    facts used are that [compare] accepts the hash of the password and
    that the serialisation carries the payload signed. *)
Theorem register_then_login (salt : string) (newId : ObjectId) (now : Z)
    (req : Req.t) (db : DB) :
  User.findOne (Req.username (Req.body req)) (users db) = None →
  newId ∉ User._id <$> users db →
  bcrypt.compare (Req.password (Req.body req))
    (bcrypt.hash salt (Req.password (Req.body req)) 10) = true →
  jwt.faithful (jwt.claims now newId (Req.username (Req.body req))) JWT_SECRET →
  ∃ db' token decoded,
    AuthRoutes.register salt newId req db
    = (Sent {| status := 201; json := Message "User registered successfully!" |},
       db')
    ∧ AuthRoutes.login now req db'
      = (Sent {| status := 200; json := MessageToken "Login successful!" token |},
         db')
    ∧ jwt.verify now token JWT_SECRET = inr decoded
    ∧ jwt.username decoded = Req.username (Req.body req).
Proof.
  intros Hfresh Hid Hcmp Hf.
  set (uname := Req.username (Req.body req)) in *.
  set (pw := Req.password (Req.body req)) in *.
  set (u := User.mk newId uname (bcrypt.hash salt pw 10)).
  assert (Hsave : User.save u (users db) = inr (users db ++ [u])).
  { unfold User.save. rewrite bool_decide_false by done.
    simpl. rewrite Hfresh.
    rewrite bool_decide_false by (by intros [? ?]).
    by rewrite andb_false_r. }
  exists (AuthRoutes.with_users (users db ++ [u]) db),
    (jwt.sign now newId uname JWT_SECRET), (jwt.claims now newId uname).
  split_and!.
  - unfold AuthRoutes.register. fold uname pw u. by rewrite Hsave.
  - unfold AuthRoutes.login. fold uname pw. simpl.
    rewrite (findOne_snoc uname (users db) u) by done.
    simpl. by rewrite Hcmp.
  - unfold jwt.sign. rewrite verify_signed by done.
    rewrite decide_False; [done |]. apply timestamp_before. simpl.
    unfold jwt.timestamp, jwt.timespan_1h. Z.div_mod_to_equations. lia.
  - done.
Qed.

(** With the unique index, a registration that is answered at all was for
    a username the store did not hold. *)
Lemma register_sent_fresh (salt : string) (newId : ObjectId) (req : Req.t)
    (db db' : DB) (r : Response) :
  User.username_unique = true →
  AuthRoutes.register salt newId req db = (Sent r, db') →
  User.findOne (Req.username (Req.body req)) (users db) = None
  ∧ newId ∉ User._id <$> users db.
Proof.
  intros Huniq. unfold AuthRoutes.register, User.save. simpl. rewrite Huniq.
  case_bool_decide as Hid; [done |]. simpl.
  case_bool_decide as Hin; [done |]. intros _. split; [| done].
  destruct (User.findOne _ _) eqn:Hfind; [| done].
  exfalso. apply Hin. eauto.
Qed.

(** C5.  [register] with a username the store already holds never
    answers with a 4xx status: when the store rejects the save the handler
    throws, having sent nothing and changed nothing, and when the store
    accepts it the handler answers 201. *)
Theorem register_existing_username (salt : string) (newId : ObjectId)
    (req : Req.t) (db : DB) (u : User.doc) :
  User.findOne (Req.username (Req.body req)) (users db) = Some u →
  (AuthRoutes.register salt newId req db = (Thrown (DuplicateKey "_id"), db)
   ∨ (User.username_unique = true
      ∧ AuthRoutes.register salt newId req db
        = (Thrown (DuplicateKey "username"), db))
   ∨ (User.username_unique = false
      ∧ ∃ db', AuthRoutes.register salt newId req db
               = (Sent {| status := 201;
                          json := Message "User registered successfully!" |},
                  db')))
  ∧ ∀ r db', AuthRoutes.register salt newId req db = (Sent r, db') →
             ¬ (400 <= status r < 500).
Proof.
  intros Hu. unfold AuthRoutes.register, User.save. simpl. rewrite Hu.
  rewrite (bool_decide_true (is_Some (Some u))) by eauto.
  case_bool_decide.
  - split; [by left | done].
  - destruct User.username_unique; simpl.
    + split; [right; left; done | done].
    + split; [right; right; eauto |].
      intros r db' [= <- _]. simpl. lia.
Qed.

End Auth.

Lemma register_then_login_witness :
  ∃ db' token decoded,
    AuthRoutes.register (H0 := Reference.Bcrypt) (H2 := Reference.Unique)
      "salt" "u1" (Sample.credentials "alice" "pw1") Sample.empty_db
    = (Sent {| status := 201; json := Message "User registered successfully!" |},
       db')
    ∧ AuthRoutes.login (H := Reference.Jws) (H0 := Reference.Bcrypt)
        (H1 := Reference.Env) 5000 (Sample.credentials "alice" "pw1") db'
      = (Sent {| status := 200; json := MessageToken "Login successful!" token |},
         db')
    ∧ jwt.verify (H := Reference.Jws) 5000 token "secret" = inr decoded
    ∧ jwt.username decoded = "alice".
Proof.
  apply (@register_then_login Reference.Jws Reference.Bcrypt Reference.Env
           Reference.Unique "salt" "u1" 5000
           (Sample.credentials "alice" "pw1") Sample.empty_db).
  - reflexivity.
  - vm_compute. apply not_elem_of_nil.
  - vm_compute. reflexivity.
  - vm_compute. reflexivity.
Defined.

Lemma register_existing_username_witness :
  let db := mkDB [User.mk "u1" "alice" "salt$pw1"] [] [] in
  AuthRoutes.register (H0 := Reference.Bcrypt) (H2 := Reference.Unique)
    "pepper" "u2" (Sample.credentials "alice" "pw2") db
  = (Thrown (DuplicateKey "username"), db).
Proof.
  destruct (@register_existing_username Reference.Bcrypt Reference.Unique
              "pepper" "u2" (Sample.credentials "alice" "pw2")
              (mkDB [User.mk "u1" "alice" "salt$pw1"] [] [])
              (User.mk "u1" "alice" "salt$pw1") eq_refl)
    as [[Hid | [[_ Hdup] | [Hnu _]]] _].
  - vm_compute in Hid. discriminate.
  - exact Hdup.
  - discriminate.
Defined.

(** ** The session middleware *)

Lemma split_no_sep (sep : ascii) (s : string) :
  occurs sep s = false → split sep s = [s].
Proof.
  induction s as [| c s IH]; simpl; [done |].
  intros [Hc Hs]%orb_false_elim. apply bool_decide_eq_false in Hc.
  rewrite decide_False by done. by rewrite IH.
Qed.

Lemma split_word (sep : ascii) (w rest : string) :
  occurs sep w = false →
  split sep (w +:+ String sep rest) = w :: split sep rest.
Proof.
  induction w as [| c w IH]; simpl.
  - intros _. by rewrite decide_True.
  - intros [Hc Hw]%orb_false_elim. apply bool_decide_eq_false in Hc.
    rewrite decide_False by done. by rewrite IH.
Qed.

Section Session.
Context `{!jwt.Jws, !ProcessEnv}.

(** C4 (as amended).  With no [Authorization] header, or one whose second
    space-separated field is missing or empty, the middleware answers 401
    [No token provided, authorization denied] and the handler does not
    run.  Otherwise the first word of the header plays no part: the second
    field alone is verified, the answer is 401 [Invalid token] without
    running the handler when [verify] throws, and the handler runs with
    the decoded identity when [verify] succeeds. *)
Theorem authMiddleware_cases (handler : Req.t → DB → Outcome * DB)
    (now : Z) (req : Req.t) (db : DB) :
  (Req.Authorization req = None → extract_token req = None)
  ∧ (∀ scheme, Req.Authorization req = Some scheme →
       occurs " " scheme = false → extract_token req = None)
  ∧ (∀ scheme token, Req.Authorization req = Some (scheme +:+ " " +:+ token) →
       occurs " " scheme = false → occurs " " token = false →
       extract_token req = Some token)
  ∧ (extract_token req = None ∨ extract_token req = Some "" →
     protected handler now req db
     = (Sent {| status := 401;
                json := Message "No token provided, authorization denied" |},
        db))
  ∧ (∀ token, extract_token req = Some token → token ≠ "" →
     protected handler now req db
     = match jwt.verify now token JWT_SECRET with
       | inr decoded => handler (Req.set_user decoded req) db
       | inl _ =>
           (Sent {| status := 401; json := Message "Invalid token" |}, db)
       end).
Proof.
  split_and!.
  - unfold extract_token. by intros ->.
  - unfold extract_token. intros scheme -> Hs. simpl.
    by rewrite split_no_sep.
  - unfold extract_token. intros scheme token -> Hs Ht. simpl.
    change (scheme +:+ " " +:+ token) with (scheme +:+ String " " token).
    by rewrite split_word, split_no_sep.
  - unfold protected, authMiddleware. by intros [-> | ->].
  - unfold protected, authMiddleware. intros token -> Hne.
    destruct token as [| c token]; [done |].
    by destruct (jwt.verify now (String c token) JWT_SECRET).
Qed.
End Session.

(** C4 (as stated) fails: a header with another scheme than [Bearer] whose
    second field is a token that verifies is let through, and the handler
    runs.  The token is the one [sign] issues for alice at clock 5000. *)
Lemma basic_scheme_is_let_through :
  let req := Sample.arriving (Some "Basic jws.u1,alice,5,3605.secret") "" "" [] in
  jwt.sign (H := Reference.Jws) 5000 "u1" "alice" "secret"
  = "jws.u1,alice,5,3605.secret"
  ∧ authMiddleware (H := Reference.Jws) (H0 := Reference.Env) 6000 req
    = Next (Req.set_user Sample.alice req)
  ∧ protected (H := Reference.Jws) (H0 := Reference.Env)
      PlaylistRoutes.listForOwner 6000 req Sample.db_chill
    = (Sent {| status := 200;
               json := Playlists [Playlist.populate [] Sample.chill] |},
       Sample.db_chill).
Proof. split_and!; vm_compute; reflexivity. Qed.

Lemma authMiddleware_cases_witness :
  let no_token :=
    (Sent {| status := 401;
             json := Message "No token provided, authorization denied" |},
     Sample.db_chill) in
  protected (H := Reference.Jws) (H0 := Reference.Env)
    (PlaylistRoutes.create "p9") 6000
    (Sample.arriving None "" "Mix" ["s1"]) Sample.db_chill = no_token
  ∧ protected (H := Reference.Jws) (H0 := Reference.Env)
      (PlaylistRoutes.create "p9") 6000
      (Sample.arriving (Some "Bearer") "" "Mix" ["s1"]) Sample.db_chill
    = no_token
  ∧ protected (H := Reference.Jws) (H0 := Reference.Env)
      (PlaylistRoutes.create "p9") 6000
      (Sample.arriving (Some "Bearer  jws.u1,alice,5,3605.secret") "" "Mix" ["s1"])
      Sample.db_chill
    = no_token
  ∧ protected (H := Reference.Jws) (H0 := Reference.Env)
      (PlaylistRoutes.create "p9") 6000
      (Sample.arriving (Some "Token abc") "" "Mix" ["s1"]) Sample.db_chill
    = (Sent {| status := 401; json := Message "Invalid token" |},
       Sample.db_chill).
Proof.
  split_and!.
  - apply (@authMiddleware_cases Reference.Jws Reference.Env). by left.
  - apply (@authMiddleware_cases Reference.Jws Reference.Env). by left.
  - apply (@authMiddleware_cases Reference.Jws Reference.Env). by right.
  - pose proof (@authMiddleware_cases Reference.Jws Reference.Env
                  (PlaylistRoutes.create "p9") 6000
                  (Sample.arriving (Some "Token abc") "" "Mix" ["s1"])
                  Sample.db_chill) as (_ & _ & Htok & _ & Hverify).
    rewrite (Hverify "abc"); [reflexivity | | discriminate].
    by apply (Htok "Token" "abc").
Defined.

(** Without the unique index the same registration is answered 201 and a
    second user of that name is stored. *)
Example register_existing_username_without_index :
  let db := mkDB [User.mk "u1" "alice" "salt$pw1"] [] [] in
  AuthRoutes.register (H0 := Reference.Bcrypt) (H2 := Reference.NotUnique)
    "pepper" "u2" (Sample.credentials "alice" "pw2") db
  = (Sent {| status := 201; json := Message "User registered successfully!" |},
     mkDB [User.mk "u1" "alice" "salt$pw1"; User.mk "u2" "alice" "pepper$pw2"]
       [] []).
Proof. vm_compute. reflexivity. Qed.

(** ** More on the playlist routes *)

Section MoreAddToSet.
Implicit Types (arr each : list ObjectId).

Lemma addToSet_each_absorb each : ∀ arr,
  (∀ x, x ∈ each → x ∈ arr) → foldl Playlist.addToSet1 arr each = arr.
Proof.
  induction each as [| x each IH]; intros arr Hin; simpl; [done |].
  unfold Playlist.addToSet1 at 2.
  rewrite decide_True by apply Hin, list_elem_of_here.
  apply IH. intros y Hy. by apply Hin, list_elem_of_further.
Qed.

Lemma addToSet_idemp each (d : Playlist.doc) :
  Playlist.addToSet each (Playlist.addToSet each d) = Playlist.addToSet each d.
Proof.
  unfold Playlist.addToSet. simpl. f_equal.
  apply addToSet_each_absorb. intros x Hx.
  apply elem_of_addToSet_each. by right.
Qed.

Lemma addToSet_absorb each (d : Playlist.doc) :
  (∀ x, x ∈ each → x ∈ Playlist.songs d) → Playlist.addToSet each d = d.
Proof.
  intros Hin. unfold Playlist.addToSet.
  rewrite addToSet_each_absorb by done. by destruct d.
Qed.
End MoreAddToSet.

Section MoreCollection.
Implicit Types (c : list Playlist.doc) (id : ObjectId)
  (update : Playlist.doc → Playlist.doc).

Lemma findByIdAndUpdate_twice id update c :
  (∀ d, Playlist._id (update d) = Playlist._id d) →
  (∀ d, update (update d) = update d) →
  Playlist.findByIdAndUpdate id update (Playlist.findByIdAndUpdate id update c).2
  = Playlist.findByIdAndUpdate id update c.
Proof.
  intros Hid Hidem. induction c as [| e c IH]; simpl; [done |].
  destruct (decide (Playlist._id e = id)) as [He | He]; simpl.
  - rewrite decide_True by (by rewrite Hid). by rewrite Hidem.
  - destruct (Playlist.findByIdAndUpdate id update c) as [r c'] eqn:Hc.
    simpl in *. rewrite decide_False by done. by rewrite IH.
Qed.

Lemma findByIdAndUpdate_fmap {B} (g : Playlist.doc → B) id update c :
  (∀ d, g (update d) = g d) →
  g <$> (Playlist.findByIdAndUpdate id update c).2 = g <$> c.
Proof.
  intros Hg. induction c as [| e c IH]; [done |].
  cbn [Playlist.findByIdAndUpdate].
  destruct (decide (Playlist._id e = id)).
  - cbn [snd]. rewrite !fmap_cons. by rewrite Hg.
  - destruct (Playlist.findByIdAndUpdate id update c) as [r c'].
    cbn [snd] in *. rewrite !fmap_cons. by rewrite IH.
Qed.

Lemma findByIdAndUpdate_other id id' update c :
  id' ≠ id →
  (∀ d, Playlist._id (update d) = Playlist._id d) →
  Playlist.findById id' (Playlist.findByIdAndUpdate id update c).2
  = Playlist.findById id' c.
Proof.
  intros Hne Hid. unfold Playlist.findById.
  induction c as [| e c IH]; simpl; [done |].
  destruct (decide (Playlist._id e = id)) as [He | He]; simpl.
  - rewrite !filter_cons, Hid.
    by rewrite !decide_False by congruence.
  - destruct (Playlist.findByIdAndUpdate id update c) as [r c'].
    simpl in *. rewrite !filter_cons.
    destruct (decide (Playlist._id e = id')); [done | exact IH].
Qed.

Lemma findByIdAndUpdate_first id update c d :
  Playlist.findById id c = Some d → update d = d →
  (Playlist.findByIdAndUpdate id update c).2 = c.
Proof.
  unfold Playlist.findById. intros Hfind Hfix.
  induction c as [| e c IH]; simpl in *; [done |].
  rewrite filter_cons in Hfind.
  destruct (decide (Playlist._id e = id)); simpl in *.
  - simplify_eq. by rewrite Hfix.
  - destruct (Playlist.findByIdAndUpdate id update c) as [r c'].
    simpl in *. by rewrite IH.
Qed.

Lemma findByIdAndDelete_other id id' c :
  id' ≠ id →
  Playlist.findById id' (Playlist.findByIdAndDelete id c).2
  = Playlist.findById id' c.
Proof.
  intros Hne. unfold Playlist.findById.
  induction c as [| e c IH]; simpl; [done |].
  destruct (decide (Playlist._id e = id)) as [He | He]; simpl.
  - rewrite filter_cons. by rewrite decide_False by congruence.
  - destruct (Playlist.findByIdAndDelete id c) as [r c'].
    simpl in *. rewrite !filter_cons.
    destruct (decide (Playlist._id e = id')); [done | exact IH].
Qed.

Lemma findByIdAndDelete_sublist id c :
  (Playlist.findByIdAndDelete id c).2 `sublist_of` c.
Proof.
  induction c as [| e c IH]; simpl; [done |].
  destruct (decide (Playlist._id e = id)); simpl.
  - by apply sublist_cons.
  - destruct (Playlist.findByIdAndDelete id c) as [r c'].
    simpl in *. by apply sublist_skip.
Qed.

Lemma findByIdAndDelete_gone id c :
  NoDup (Playlist._id <$> c) →
  Playlist.findById id (Playlist.findByIdAndDelete id c).2 = None.
Proof.
  intros Hnd. destruct (Playlist.findById id c) as [d |] eqn:Hfind.
  - destruct (findByIdAndDelete_found id c d Hfind Hnd) as (c' & -> & Hnone & _).
    done.
  - by rewrite findByIdAndDelete_missing.
Qed.
End MoreCollection.

(** X1.  [addSongs] is idempotent: sending the same request a second time
    gets the same response and leaves the store as the first left it. *)
Theorem addSongs_idempotent (req : Req.t) (db : DB) :
  PlaylistRoutes.addSongs req (PlaylistRoutes.addSongs req db).2
  = PlaylistRoutes.addSongs req db.
Proof.
  unfold PlaylistRoutes.addSongs.
  pose proof (findByIdAndUpdate_twice (Req.playlistId req)
                (Playlist.addToSet (Req.songs (Req.body req))) (playlists db)
                (λ d, eq_refl) (addToSet_idemp _)) as Htwice.
  destruct (Playlist.findByIdAndUpdate _ _ (playlists db)) as [r c'] eqn:Hc.
  simpl in *. by rewrite Htwice.
Qed.

(** X2.  [addSongs] touches nothing but the songs of the playlist it
    names: users and catalog are as before, the collection holds the same
    ids, names and owners in the same order, and every playlist with
    another id is found unchanged. *)
Theorem addSongs_frame (req : Req.t) (db : DB) :
  users (PlaylistRoutes.addSongs req db).2 = users db
  ∧ songs (PlaylistRoutes.addSongs req db).2 = songs db
  ∧ (λ d, (Playlist._id d, Playlist.name d, Playlist.userId d))
      <$> playlists (PlaylistRoutes.addSongs req db).2
    = (λ d, (Playlist._id d, Playlist.name d, Playlist.userId d))
        <$> playlists db
  ∧ ∀ id', id' ≠ Req.playlistId req →
      Playlist.findById id' (playlists (PlaylistRoutes.addSongs req db).2)
      = Playlist.findById id' (playlists db).
Proof.
  unfold PlaylistRoutes.addSongs.
  pose proof (findByIdAndUpdate_fmap
                (λ d, (Playlist._id d, Playlist.name d, Playlist.userId d))
                (Req.playlistId req)
                (Playlist.addToSet (Req.songs (Req.body req))) (playlists db)
                (λ d, eq_refl)) as Hmap.
  pose proof (λ id' Hne, findByIdAndUpdate_other (Req.playlistId req) id'
                (Playlist.addToSet (Req.songs (Req.body req))) (playlists db)
                Hne (λ d, eq_refl)) as Hother.
  destruct (Playlist.findByIdAndUpdate _ _ (playlists db)) as [r c'].
  simpl in *. done.
Qed.

(** X3.  [addSongs] only appends: the songs a stored playlist held stay
    at the front, in their order, and the playlist keeps its name and its
    owner. *)
Theorem addSongs_appends (req : Req.t) (db : DB) (p : Playlist.doc) :
  Playlist.findById (Req.playlistId req) (playlists db) = Some p →
  ∃ p', Playlist.findById (Req.playlistId req)
          (playlists (PlaylistRoutes.addSongs req db).2) = Some p'
        ∧ Playlist.songs p `prefix_of` Playlist.songs p'
        ∧ Playlist.name p' = Playlist.name p
        ∧ Playlist.userId p' = Playlist.userId p.
Proof.
  intros Hp.
  destruct (findByIdAndUpdate_found (Req.playlistId req)
              (Playlist.addToSet (Req.songs (Req.body req))) _ p Hp)
    as (c' & Hc' & Hfind); [done |].
  exists (Playlist.addToSet (Req.songs (Req.body req)) p).
  unfold PlaylistRoutes.addSongs. rewrite Hc'. simpl.
  split_and!; [done | apply addToSet_each_prefix | done | done].
Qed.

Lemma addSongs_appends_witness :
  ∃ p', Playlist.findById "p1"
          (playlists (PlaylistRoutes.addSongs
                        (Sample.request (Some Sample.bob) "p1" "" ["s5"; "s0"])
                        Sample.db_chill).2) = Some p'
        ∧ ["s0"] `prefix_of` Playlist.songs p'.
Proof.
  destruct (addSongs_appends
              (Sample.request (Some Sample.bob) "p1" "" ["s5"; "s0"])
              Sample.db_chill Sample.chill eq_refl)
    as (p' & Hfind & Hpre & _).
  exists p'. split; [exact Hfind | exact Hpre].
Defined.

(** X4.  An [addSongs] request that names only songs the playlist already
    holds, the empty request in particular, leaves the whole store as it
    was. *)
Theorem addSongs_nothing_new (req : Req.t) (db : DB) (p : Playlist.doc) :
  Playlist.findById (Req.playlistId req) (playlists db) = Some p →
  (∀ x, x ∈ Req.songs (Req.body req) → x ∈ Playlist.songs p) →
  (PlaylistRoutes.addSongs req db).2 = db.
Proof.
  intros Hp Hin.
  pose proof (findByIdAndUpdate_first (Req.playlistId req)
                (Playlist.addToSet (Req.songs (Req.body req))) _ p Hp
                (addToSet_absorb _ _ Hin)) as Hsame.
  unfold PlaylistRoutes.addSongs.
  destruct (Playlist.findByIdAndUpdate _ _ (playlists db)) as [r c'].
  simpl in *. subst c'. by destruct db.
Qed.

Lemma addSongs_nothing_new_witness :
  (PlaylistRoutes.addSongs (Sample.request (Some Sample.alice) "p1" "" ["s0"; "s0"])
     Sample.db_chill).2 = Sample.db_chill
  ∧ (PlaylistRoutes.addSongs (Sample.request (Some Sample.alice) "p1" "" [])
       Sample.db_chill).2 = Sample.db_chill.
Proof.
  split.
  - apply (addSongs_nothing_new
             (Sample.request (Some Sample.alice) "p1" "" ["s0"; "s0"])
             Sample.db_chill Sample.chill eq_refl).
    intros x Hx. apply elem_of_cons in Hx as [-> | Hx]; [apply list_elem_of_here |].
    exact Hx.
  - apply (addSongs_nothing_new
             (Sample.request (Some Sample.alice) "p1" "" [])
             Sample.db_chill Sample.chill eq_refl).
    intros x Hx. by apply elem_of_nil in Hx.
Defined.

(** X6.  [create] stores nothing when it fails: without an identity on
    the request it throws a [TypeError], with an empty name a validation
    error on [name], and with an [_id] the collection already holds a
    duplicate-key error; in each case the store is left as it was. *)
Theorem create_rejected (newId : ObjectId) (req : Req.t) (db : DB) :
  (Req.user req = None →
   PlaylistRoutes.create newId req db = (Thrown TypeError, db))
  ∧ (∀ u, Req.user req = Some u → Req.name (Req.body req) = "" →
       PlaylistRoutes.create newId req db
       = (Thrown (ValidationError "name"), db))
  ∧ (∀ u, Req.user req = Some u → Req.name (Req.body req) ≠ "" →
       newId ∈ Playlist._id <$> playlists db →
       PlaylistRoutes.create newId req db
       = (Thrown (DuplicateKey "_id"), db))
  ∧ ∀ e db', PlaylistRoutes.create newId req db = (Thrown e, db') → db' = db.
Proof.
  unfold PlaylistRoutes.create, Playlist.save, Playlist.validate.
  split_and!.
  - by intros ->.
  - intros u -> Hname. simpl. by rewrite decide_True.
  - intros u -> Hname Hin. simpl.
    rewrite decide_False by done. by rewrite bool_decide_true.
  - intros e db'. destruct (Req.user req); simpl; [| by intros [= _ <-]].
    case_decide; [by intros [= _ <-] |].
    case_bool_decide; [by intros [= _ <-] | done].
Qed.

Lemma step_ids_distinct (db : DB) (op : Op) :
  ids_distinct db → ids_distinct (step db op).
Proof.
  unfold ids_distinct. intros Hnd.
  destruct op as [newId req | req | req]; simpl.
  - unfold PlaylistRoutes.create.
    destruct (Req.user req) as [u |]; [| done].
    unfold Playlist.save. destruct (Playlist.validate _); [done |].
    case_bool_decide as Hin; [done |]. simpl.
    rewrite fmap_app. apply NoDup_app. split_and!; [done | | apply NoDup_singleton].
    intros x Hx ->%list_elem_of_singleton. done.
  - unfold PlaylistRoutes.addSongs.
    pose proof (findByIdAndUpdate_fmap Playlist._id (Req.playlistId req)
                  (Playlist.addToSet (Req.songs (Req.body req)))
                  (playlists db) (λ d, eq_refl)) as Hids.
    destruct (Playlist.findByIdAndUpdate _ _ _) as [r c']. simpl in *.
    by rewrite Hids.
  - unfold PlaylistRoutes.delete.
    pose proof (findByIdAndDelete_sublist (Req.playlistId req) (playlists db))
      as Hsub.
    destruct (Playlist.findByIdAndDelete _ _) as [r c']. simpl in *.
    apply (sublist_NoDup _ (Playlist._id <$> playlists db) Hnd). by apply fmap_sublist.
Qed.

(** X7.  No sequence of [create], [addSongs] and [delete] makes two
    playlists share an [_id]: a store with distinct playlist ids keeps
    them distinct. *)
Theorem run_ids_distinct (ops : list Op) (db : DB) :
  ids_distinct db → ids_distinct (run ops db).
Proof.
  revert db. induction ops as [| op ops IH]; intros db Hdb; [done |].
  unfold run. simpl. by apply IH, step_ids_distinct.
Qed.

Lemma run_ids_distinct_witness :
  ids_distinct
    (run [Create "p1" (Sample.request (Some Sample.bob) "" "Again" []);
          Create "p2" (Sample.request (Some Sample.bob) "" "Mix" ["s1"]);
          Delete (Sample.request (Some Sample.alice) "p1" "" [])]
       Sample.db_chill).
Proof. apply run_ids_distinct. apply NoDup_singleton. Defined.

(** X8.  [delete] removes at most the playlist it names: users and
    catalog are as before, what is left of the collection is a sublist of
    it, and every playlist with another id is found unchanged. *)
Theorem delete_frame (req : Req.t) (db : DB) :
  users (PlaylistRoutes.delete req db).2 = users db
  ∧ songs (PlaylistRoutes.delete req db).2 = songs db
  ∧ playlists (PlaylistRoutes.delete req db).2 `sublist_of` playlists db
  ∧ ∀ id', id' ≠ Req.playlistId req →
      Playlist.findById id' (playlists (PlaylistRoutes.delete req db).2)
      = Playlist.findById id' (playlists db).
Proof.
  unfold PlaylistRoutes.delete.
  pose proof (findByIdAndDelete_sublist (Req.playlistId req) (playlists db))
    as Hsub.
  pose proof (λ id' Hne, findByIdAndDelete_other (Req.playlistId req) id'
                (playlists db) Hne) as Hother.
  destruct (Playlist.findByIdAndDelete _ _) as [r c']. simpl in *. done.
Qed.

Lemma Song_findById_id (id : ObjectId) (c : list Song.doc) (s : Song.doc) :
  Song.findById id c = Some s → Song._id s = id.
Proof.
  unfold Song.findById. intros Hfind%head_Some_elem_of.
  by apply list_elem_of_filter in Hfind as [? _].
Qed.

Lemma Song_findById_None (id : ObjectId) (c : list Song.doc) :
  Song.findById id c = None ↔ id ∉ Song._id <$> c.
Proof.
  unfold Song.findById. induction c as [| e c IH].
  - split; [intros _; apply not_elem_of_nil | done].
  - rewrite filter_cons, fmap_cons, not_elem_of_cons.
    destruct (decide (Song._id e = id)) as [He | He].
    + split; [done | by intros [? _]].
    + rewrite IH. split; [by split | by intros [_ ?]].
Qed.

(** X10.  [populate] expands exactly the references that resolve: the
    ids of the expanded songs are the playlist's song ids that the catalog
    holds, in the playlist's order and with its repeats; dangling
    references are dropped. *)
Theorem populate_ids (catalog : list Song.doc) (d : Playlist.doc) :
  Song._id <$> Playlist.p_songs (Playlist.populate catalog d)
  = filter (λ id, id ∈ Song._id <$> catalog) (Playlist.songs d).
Proof.
  unfold Playlist.populate. simpl.
  induction (Playlist.songs d) as [| id l IH]; [done |].
  rewrite filter_cons. simpl.
  destruct (Song.findById id catalog) as [s |] eqn:Hfind.
  - rewrite decide_True.
    + rewrite fmap_cons. f_equal; [by eapply Song_findById_id | exact IH].
    + destruct (decide (id ∈ Song._id <$> catalog)) as [? | Hn]; [done |].
      apply Song_findById_None in Hn. congruence.
  - rewrite decide_False by (by apply Song_findById_None). exact IH.
Qed.

(** ** More on registration, login and the middleware *)

Lemma User_findOne_None (uname : string) (c : list User.doc) :
  User.findOne uname c = None ↔ uname ∉ User.username <$> c.
Proof.
  unfold User.findOne. induction c as [| e c IH].
  - split; [intros _; apply not_elem_of_nil | done].
  - rewrite filter_cons, fmap_cons, not_elem_of_cons.
    destruct (decide (User.username e = uname)) as [He | He].
    + split; [done | by intros [? _]].
    + rewrite IH. split; [by split | by intros [_ ?]].
Qed.

Lemma User_findOne_snoc_found (uname : string) (c : list User.doc)
    (d u : User.doc) :
  User.findOne uname c = Some u → User.findOne uname (c ++ [d]) = Some u.
Proof.
  unfold User.findOne. rewrite filter_app.
  destruct (filter _ c); [done |]. done.
Qed.

Section MoreAuth.
Context `{!jwt.Jws, !bcrypt.Impl, !ProcessEnv, !User.Schema}.

Lemma register_users (salt : string) (newId : ObjectId) (req : Req.t) (db : DB) :
  users (AuthRoutes.register salt newId req db).2 = users db
  ∨ (users (AuthRoutes.register salt newId req db).2
     = (users db
        ++ [User.mk newId (Req.username (Req.body req))
              (bcrypt.hash salt (Req.password (Req.body req)) 10)])
     ∧ (newId ∉ User._id <$> users db)
     ∧ (User.username_unique = true →
        Req.username (Req.body req) ∉ (User.username <$> users db))).
Proof.
  unfold AuthRoutes.register, User.save. simpl.
  case_bool_decide as Hid; [by left |].
  destruct User.username_unique; simpl.
  - case_bool_decide as Hin; [by left |]. right. split_and!; [done | done |].
    intros _. apply User_findOne_None.
    destruct (User.findOne _ _) eqn:Hfind; [| done]. exfalso. apply Hin. eauto.
  - right. split_and!; done.
Qed.

Lemma protected_bearer (handler : Req.t → DB → Outcome * DB) (t : Z)
    (req : Req.t) (db : DB) (token : string) :
  Req.Authorization req = Some ("Bearer " +:+ token) →
  token ≠ "" → occurs " " token = false →
  protected handler t req db
  = match jwt.verify t token JWT_SECRET with
    | inr decoded => handler (Req.set_user decoded req) db
    | inl _ => (Sent {| status := 401; json := Message "Invalid token" |}, db)
    end.
Proof.
  intros Hh Hne Hsp.
  assert (Htok : extract_token req = Some token).
  { unfold extract_token. rewrite Hh.
    change (split " " ("Bearer" +:+ String " " token) !! 1%nat = Some token).
    rewrite split_word by reflexivity. by rewrite split_no_sep. }
  unfold protected, authMiddleware. rewrite Htok.
  destruct token as [| c token]; [done |].
  by destruct (jwt.verify t (String c token) JWT_SECRET).
Qed.

(** X11.  The token a successful [login] returns opens the protected
    routes: sent as [Bearer <token>] at any instant before its expiry it
    passes the middleware, and the handler runs with an identity whose
    [userId] is the [_id] of the user who logged in.  The token is
    assumed free of spaces and read back by the serialisation. *)
Theorem issued_token_is_accepted (handler : Req.t → DB → Outcome * DB)
    (now t : Z) (req req2 : Req.t) (db db2 : DB) (u : User.doc) :
  User.findOne (Req.username (Req.body req)) (users db) = Some u →
  bcrypt.compare (Req.password (Req.body req)) (User.password u) = true →
  jwt.faithful (jwt.claims now (User._id u) (User.username u)) JWT_SECRET →
  jwt.sign now (User._id u) (User.username u) JWT_SECRET ≠ "" →
  occurs " " (jwt.sign now (User._id u) (User.username u) JWT_SECRET) = false →
  Req.Authorization req2
  = Some ("Bearer " +:+ jwt.sign now (User._id u) (User.username u) JWT_SECRET) →
  t < (jwt.timestamp now + 3600) * 1000 →
  AuthRoutes.login now req db
  = (Sent {| status := 200;
             json := MessageToken "Login successful!"
                       (jwt.sign now (User._id u) (User.username u) JWT_SECRET) |},
     db)
  ∧ protected handler t req2 db2
    = handler (Req.set_user (jwt.claims now (User._id u) (User.username u)) req2)
        db2
  ∧ jwt.userId (jwt.claims now (User._id u) (User.username u)) = User._id u.
Proof.
  intros Hu Hcmp Hf Hne Hsp Hh Ht. split_and!; [| | done].
  - unfold AuthRoutes.login. by rewrite Hu, Hcmp.
  - rewrite (protected_bearer handler t req2 db2 _ Hh Hne Hsp).
    unfold jwt.sign. rewrite verify_signed by done.
    rewrite decide_False; [done |]. by apply timestamp_before.
Qed.

(** X12.  From its expiry on, the same token is refused: sent as
    [Bearer <token>] at an instant not before [exp] it gets 401
    [Invalid token], the handler does not run and the store is
    untouched. *)
Theorem expired_token_is_refused (handler : Req.t → DB → Outcome * DB)
    (now t : Z) (uid : ObjectId) (uname : string) (req : Req.t) (db : DB) :
  jwt.faithful (jwt.claims now uid uname) JWT_SECRET →
  jwt.sign now uid uname JWT_SECRET ≠ "" →
  occurs " " (jwt.sign now uid uname JWT_SECRET) = false →
  Req.Authorization req = Some ("Bearer " +:+ jwt.sign now uid uname JWT_SECRET) →
  (jwt.timestamp now + 3600) * 1000 <= t →
  protected handler t req db
  = (Sent {| status := 401; json := Message "Invalid token" |}, db).
Proof.
  intros Hf Hne Hsp Hh Ht.
  rewrite (protected_bearer handler t req db _ Hh Hne Hsp).
  unfold jwt.sign. rewrite verify_signed by done.
  rewrite decide_True; [done |].
  destruct (decide (jwt.timestamp t >= jwt.exp (jwt.claims now uid uname)))
    as [? | Hn]; [done |].
  apply timestamp_before in Hn. simpl in Hn. unfold jwt.timespan_1h in Hn. lia.
Qed.

(** X13.  [register] never removes or alters a stored user, and never
    touches songs or playlists; it keeps the user ids distinct, and with
    the unique index it keeps the usernames distinct. *)
Theorem register_keeps_users (salt : string) (newId : ObjectId) (req : Req.t)
    (db : DB) :
  users db `prefix_of` users (AuthRoutes.register salt newId req db).2
  ∧ songs (AuthRoutes.register salt newId req db).2 = songs db
  ∧ playlists (AuthRoutes.register salt newId req db).2 = playlists db
  ∧ (NoDup (User._id <$> users db) →
     NoDup (User._id <$> users (AuthRoutes.register salt newId req db).2))
  ∧ (User.username_unique = true →
     NoDup (User.username <$> users db) →
     NoDup (User.username <$> users (AuthRoutes.register salt newId req db).2)).
Proof.
  pose proof (register_users salt newId req db) as Husers.
  assert (Hrest : songs (AuthRoutes.register salt newId req db).2 = songs db
                  ∧ playlists (AuthRoutes.register salt newId req db).2
                    = playlists db).
  { unfold AuthRoutes.register. by destruct (User.save _ _). }
  destruct Hrest as [Hs Hp].
  destruct Husers as [-> | (-> & Hid & Hname)].
  - split_and!; done.
  - split_and!; [by apply prefix_app_r | done | done | |].
    + intros Hnd. rewrite fmap_app. apply NoDup_app.
      split_and!; [done | | apply NoDup_singleton].
      intros x Hx ->%list_elem_of_singleton. done.
    + intros Huniq Hnd. rewrite fmap_app. apply NoDup_app.
      split_and!; [done | | apply NoDup_singleton].
      intros x Hx ->%list_elem_of_singleton. by apply Hname.
Qed.

(** X14.  A later registration cannot take over or lock out an existing
    account: for a username the store already holds, [login] answers the
    same after any [register] as before it, with or without the unique
    index. *)
Theorem existing_login_unaffected (salt : string) (newId : ObjectId) (now : Z)
    (req reg : Req.t) (db : DB) (u : User.doc) :
  User.findOne (Req.username (Req.body req)) (users db) = Some u →
  (AuthRoutes.login now req (AuthRoutes.register salt newId reg db).2).1
  = (AuthRoutes.login now req db).1.
Proof.
  intros Hu.
  assert (Hfind : User.findOne (Req.username (Req.body req))
                    (users (AuthRoutes.register salt newId reg db).2) = Some u).
  { destruct (register_users salt newId reg db) as [-> | (-> & _)]; [done |].
    by apply User_findOne_snoc_found. }
  unfold AuthRoutes.login. rewrite Hfind, Hu.
  by destruct (bcrypt.compare _ _).
Qed.

End MoreAuth.

Lemma issued_token_is_accepted_witness :
  let db := mkDB [User.mk "u1" "alice" "salt$pw1"] [] [] in
  let req2 := Sample.arriving (Some "Bearer jws.u1,alice,5,3605.secret")
                "" "Mix" ["s1"] in
  AuthRoutes.login (H := Reference.Jws) (H0 := Reference.Bcrypt)
    (H1 := Reference.Env) 5000 (Sample.credentials "alice" "pw1") db
  = (Sent {| status := 200;
             json := MessageToken "Login successful!"
                       "jws.u1,alice,5,3605.secret" |}, db)
  ∧ protected (H := Reference.Jws) (H0 := Reference.Env)
      (PlaylistRoutes.create "p2") 3604999 req2 Sample.db_chill
    = PlaylistRoutes.create "p2" (Req.set_user Sample.alice req2)
        Sample.db_chill.
Proof.
  destruct (@issued_token_is_accepted Reference.Jws Reference.Bcrypt
              Reference.Env (PlaylistRoutes.create "p2") 5000 3604999
              (Sample.credentials "alice" "pw1")
              (Sample.arriving (Some "Bearer jws.u1,alice,5,3605.secret")
                 "" "Mix" ["s1"])
              (mkDB [User.mk "u1" "alice" "salt$pw1"] [] []) Sample.db_chill
              (User.mk "u1" "alice" "salt$pw1"))
    as (Hlogin & Hrun & _).
  - reflexivity.
  - vm_compute. reflexivity.
  - vm_compute. reflexivity.
  - vm_compute. discriminate.
  - vm_compute. reflexivity.
  - vm_compute. reflexivity.
  - vm_compute. reflexivity.
  - split; [exact Hlogin | exact Hrun].
Defined.

Lemma expired_token_is_refused_witness :
  protected (H := Reference.Jws) (H0 := Reference.Env)
    (PlaylistRoutes.create "p2") 3605000
    (Sample.arriving (Some "Bearer jws.u1,alice,5,3605.secret") "" "Mix" ["s1"])
    Sample.db_chill
  = (Sent {| status := 401; json := Message "Invalid token" |}, Sample.db_chill).
Proof.
  apply (@expired_token_is_refused Reference.Jws Reference.Env
           (PlaylistRoutes.create "p2") 5000 3605000 "u1" "alice").
  - vm_compute. reflexivity.
  - vm_compute. discriminate.
  - vm_compute. reflexivity.
  - vm_compute. reflexivity.
  - vm_compute. discriminate.
Defined.

Lemma existing_login_unaffected_witness :
  let db := mkDB [User.mk "u1" "alice" "salt$pw1"] [] [] in
  (AuthRoutes.login (H := Reference.Jws) (H0 := Reference.Bcrypt)
     (H1 := Reference.Env) 5000 (Sample.credentials "alice" "pw1")
     (AuthRoutes.register (H0 := Reference.Bcrypt) (H2 := Reference.NotUnique)
        "pepper" "u2" (Sample.credentials "alice" "pw2") db).2).1
  = (AuthRoutes.login (H := Reference.Jws) (H0 := Reference.Bcrypt)
       (H1 := Reference.Env) 5000 (Sample.credentials "alice" "pw1") db).1.
Proof.
  apply (@existing_login_unaffected Reference.Jws Reference.Bcrypt
           Reference.Env Reference.NotUnique "pepper" "u2" 5000
           (Sample.credentials "alice" "pw1")
           (Sample.credentials "alice" "pw2")
           (mkDB [User.mk "u1" "alice" "salt$pw1"] [] [])
           (User.mk "u1" "alice" "salt$pw1")).
  reflexivity.
Defined.

(** ** The song routes *)

Section Songs.
Context `{!Path}.

Lemma song_validate_nil (d : Song.doc) :
  SongRoutes.validate d = []
  ↔ Song.name d ≠ "" ∧ Song.artist d ≠ "" ∧ Song.genre d ≠ ""
    ∧ Song.filePath d ≠ "".
Proof.
  unfold SongRoutes.validate.
  repeat case_decide; split; try done; intros (? & ? & ? & ?); done.
Qed.

(** What a 201 from [create] tells. *)
Lemma song_create_sent (newId : ObjectId) (req : SongRoutes.request)
    (s s' : SongRoutes.Server) (st : Z) (b : SongRoutes.body) :
  SongRoutes.create newId req s = (SongRoutes.Sent st b, s') →
  ∃ f, SongRoutes.audio req = Some f
       ∧ (newId ∉ Song._id <$> songs (SongRoutes.store s))
       ∧ st = 201
       ∧ b = SongRoutes.MessageSong "Song added successfully!"
               (Song.mk newId (SongRoutes.name req) (SongRoutes.artist req)
                  (SongRoutes.genre req)
                  (path_join "uploads/" (SongRoutes.originalname f)))
       ∧ s' = SongRoutes.mkServer
                (SongRoutes.with_songs
                   (songs (SongRoutes.store s)
                    ++ [Song.mk newId (SongRoutes.name req)
                          (SongRoutes.artist req) (SongRoutes.genre req)
                          (path_join "uploads/" (SongRoutes.originalname f))])
                   (SongRoutes.store s))
                (<[path_join "uploads/" (SongRoutes.originalname f)
                   := SongRoutes.buffer f]> (SongRoutes.disk s)).
Proof.
  unfold SongRoutes.create, SongRoutes.upload_single, SongRoutes.save.
  destruct (SongRoutes.audio req) as [f |]; [| done].
  destruct (SongRoutes.validate _); [| done]. simpl.
  case_bool_decide as Hid; [done |].
  intros [= <- <- <-]. exists f. done.
Qed.

(** X16.  A song that [create] stored is what the catalog lists next: for
    a request with a file, non-empty [name], [artist], [genre] and file
    path, and a fresh [_id], [create] answers 201 with the song, whose
    [filePath] is the upload path of the file's original name; the next
    listing is the former catalog followed by the song, and the file's
    bytes are on disk at that path. *)
Theorem song_create_then_list (newId : ObjectId) (req : SongRoutes.request)
    (s : SongRoutes.Server) (f : SongRoutes.File) :
  SongRoutes.audio req = Some f →
  SongRoutes.name req ≠ "" → SongRoutes.artist req ≠ "" →
  SongRoutes.genre req ≠ "" →
  path_join "uploads/" (SongRoutes.originalname f) ≠ "" →
  newId ∉ Song._id <$> songs (SongRoutes.store s) →
  let song := Song.mk newId (SongRoutes.name req) (SongRoutes.artist req)
                (SongRoutes.genre req)
                (path_join "uploads/" (SongRoutes.originalname f)) in
  ∃ s',
    SongRoutes.create newId req s
    = (SongRoutes.Sent 201
         (SongRoutes.MessageSong "Song added successfully!" song), s')
    ∧ SongRoutes.list_all s'
      = (SongRoutes.Sent 200
           (SongRoutes.Songs (songs (SongRoutes.store s) ++ [song])), s')
    ∧ SongRoutes.disk s' !! Song.filePath song = Some (SongRoutes.buffer f).
Proof.
  intros Hf Hname Hartist Hgenre Hpath Hid song.
  eexists. split_and!.
  - unfold SongRoutes.create, SongRoutes.upload_single, SongRoutes.save.
    rewrite Hf. fold song.
    rewrite (proj2 (song_validate_nil song)) by done.
    rewrite bool_decide_false by done. reflexivity.
  - reflexivity.
  - simpl. apply lookup_insert_eq.
Qed.

(** X17.  A request without a file makes [create] throw and changes
    nothing.  A request with a file has its bytes written to the upload
    path whatever the answer is, also when validation or the store
    rejects the song; and whenever [create] throws the database is left
    as it was. *)
Theorem song_create_rejected (newId : ObjectId) (req : SongRoutes.request)
    (s : SongRoutes.Server) :
  (SongRoutes.audio req = None →
   SongRoutes.create newId req s = (SongRoutes.Thrown SongRoutes.NoFile, s))
  ∧ (∀ f, SongRoutes.audio req = Some f →
       SongRoutes.disk (SongRoutes.create newId req s).2
       = <[path_join "uploads/" (SongRoutes.originalname f)
           := SongRoutes.buffer f]> (SongRoutes.disk s))
  ∧ (∀ e s', SongRoutes.create newId req s = (SongRoutes.Thrown e, s') →
       SongRoutes.store s' = SongRoutes.store s)
  ∧ (∀ f, SongRoutes.audio req = Some f →
       (SongRoutes.name req = "" ∨ SongRoutes.artist req = ""
        ∨ SongRoutes.genre req = "") →
       ∃ paths, paths ≠ []
         ∧ (SongRoutes.create newId req s).1
           = SongRoutes.Thrown (SongRoutes.ValidationFailed paths)).
Proof.
  unfold SongRoutes.create, SongRoutes.upload_single, SongRoutes.save.
  split_and!.
  - intros ->. by destruct s.
  - intros f ->.
    destruct (SongRoutes.validate _); [| done].
    by case_bool_decide.
  - intros e s'. destruct (SongRoutes.audio req) as [f |]; [| by intros [= _ <-]].
    destruct (SongRoutes.validate _); [| by intros [= _ <-]].
    case_bool_decide; [by intros [= _ <-] | done].
  - intros f -> Hempty.
    destruct (SongRoutes.validate _) as [| p ps] eqn:Hval.
    + apply song_validate_nil in Hval. simpl in Hval.
      destruct Hval as (? & ? & ? & _).
      destruct Hempty as [? | [? | ?]]; done.
    + exists (p :: ps). done.
Qed.

(** X18.  The upload path depends on the original file name alone: when
    two songs are created from files of the same name, both songs are in
    the catalog with the same [filePath], and the bytes at that path are
    those of the second file. *)
Theorem same_name_overwrites (id1 id2 : ObjectId)
    (req1 req2 : SongRoutes.request) (s s1 s2 : SongRoutes.Server)
    (f1 f2 : SongRoutes.File) (st1 st2 : Z) (m1 m2 : string)
    (song1 song2 : Song.doc) :
  SongRoutes.audio req1 = Some f1 → SongRoutes.audio req2 = Some f2 →
  SongRoutes.originalname f1 = SongRoutes.originalname f2 →
  SongRoutes.create id1 req1 s
  = (SongRoutes.Sent st1 (SongRoutes.MessageSong m1 song1), s1) →
  SongRoutes.create id2 req2 s1
  = (SongRoutes.Sent st2 (SongRoutes.MessageSong m2 song2), s2) →
  song1 ∈ songs (SongRoutes.store s2)
  ∧ song2 ∈ songs (SongRoutes.store s2)
  ∧ song1 ≠ song2
  ∧ Song.filePath song1 = Song.filePath song2
  ∧ SongRoutes.disk s2 !! Song.filePath song1 = Some (SongRoutes.buffer f2).
Proof.
  intros Hf1 Hf2 Hname
    (g1 & Hg1 & Hid1 & _ & [= _ ->] & ->)%song_create_sent
    (g2 & Hg2 & Hid2 & _ & [= _ ->] & ->)%song_create_sent.
  simplify_eq. simpl in *. rewrite Hname.
  split_and!.
  - rewrite !elem_of_app, !list_elem_of_singleton. by left; right.
  - rewrite !elem_of_app, !list_elem_of_singleton. by right.
  - intros [= -> _ _ _]. apply Hid2.
    rewrite fmap_app, elem_of_app. right. apply list_elem_of_here.
  - done.
  - apply lookup_insert_eq.
Qed.

(** X19.  A song the catalog took in resolves in every playlist that
    refers to it: after a 201 from [create], [populate] against the new
    catalog expands every playlist holding the song's [_id] to a list
    that holds the song. *)
Theorem created_song_resolves (newId : ObjectId) (req : SongRoutes.request)
    (s s' : SongRoutes.Server) (st : Z) (m : string) (song : Song.doc)
    (d : Playlist.doc) :
  SongRoutes.create newId req s
  = (SongRoutes.Sent st (SongRoutes.MessageSong m song), s') →
  newId ∈ Playlist.songs d →
  song ∈ Playlist.p_songs (Playlist.populate (songs (SongRoutes.store s')) d).
Proof.
  intros (f & Hf & Hid & _ & [= _ ->] & ->)%song_create_sent Hin.
  unfold Playlist.populate. simpl. apply list_elem_of_omap.
  exists newId. split; [done |].
  unfold Song.findById. rewrite filter_app.
  apply Song_findById_None in Hid. unfold Song.findById in Hid.
  apply head_None in Hid. rewrite Hid. simpl.
  rewrite filter_cons. by rewrite decide_True.
Qed.
End Songs.

Lemma song_create_then_list_witness :
  ∃ s',
    @SongRoutes.create reference_path "s1"
      (SongSample.upload "Tune" SongSample.tune) SongSample.server
    = (SongRoutes.Sent 201
         (SongRoutes.MessageSong "Song added successfully!" SongSample.song1),
       s')
    ∧ SongRoutes.list_all s'
      = (SongRoutes.Sent 200 (SongRoutes.Songs [SongSample.song1]), s')
    ∧ SongRoutes.disk s' !! "uploads/tune.mp3" = Some "first bytes".
Proof.
  apply (@song_create_then_list reference_path "s1"
           (SongSample.upload "Tune" SongSample.tune) SongSample.server
           SongSample.tune eq_refl); try discriminate.
  apply not_elem_of_nil.
Defined.

Lemma same_name_overwrites_witness :
  SongSample.song1 ∈ songs (SongRoutes.store SongSample.server2)
  ∧ SongSample.song2 ∈ songs (SongRoutes.store SongSample.server2)
  ∧ SongSample.song1 ≠ SongSample.song2
  ∧ Song.filePath SongSample.song1 = Song.filePath SongSample.song2
  ∧ SongRoutes.disk SongSample.server2 !! Song.filePath SongSample.song1
    = Some "other bytes".
Proof.
  apply (@same_name_overwrites reference_path "s1" "s2"
           (SongSample.upload "Tune" SongSample.tune)
           (SongSample.upload "Retake" SongSample.retake)
           SongSample.server SongSample.server1 SongSample.server2
           SongSample.tune SongSample.retake 201 201
           "Song added successfully!" "Song added successfully!"
           SongSample.song1 SongSample.song2 eq_refl eq_refl eq_refl).
  - reflexivity.
  - reflexivity.
Defined.

Lemma created_song_resolves_witness :
  SongSample.song1
  ∈ Playlist.p_songs
      (Playlist.populate (songs (SongRoutes.store SongSample.server1))
         (Playlist.mk "p1" "Chill" "u1" ["s0"; "s1"])).
Proof.
  apply (@created_song_resolves reference_path "s1"
           (SongSample.upload "Tune" SongSample.tune)
           SongSample.server SongSample.server1 201
           "Song added successfully!" SongSample.song1
           (Playlist.mk "p1" "Chill" "u1" ["s0"; "s1"])).
  - reflexivity.
  - apply list_elem_of_further, list_elem_of_here.
Defined.

(** ** The carousel *)

Section Carousel.
Import SongCarousel.

Lemma succ_mod (i n : nat) :
  (i < n)%nat →
  ((i + 1) mod n = if decide (i + 1 = n) then 0 else i + 1)%nat.
Proof.
  intros Hi. case_decide as Heq.
  - rewrite Heq. apply Nat.Div0.mod_same.
  - apply Nat.mod_small. lia.
Qed.

Lemma pred_mod (i n : nat) :
  (i < n)%nat →
  ((i + n - 1) mod n = if decide (i = 0) then n - 1 else i - 1)%nat.
Proof.
  intros Hi. case_decide as Heq.
  - subst i. apply Nat.mod_small. lia.
  - replace (i + n - 1)%nat with ((i - 1) + 1 * n)%nat by lia.
    rewrite Nat.Div0.mod_add. apply Nat.mod_small. lia.
Qed.

Lemma at_index_nat (l : list song) (k : nat) :
  at_index l (Num (Z.of_nat k)) = l !! k.
Proof.
  unfold at_index. rewrite decide_True by lia. by rewrite Nat2Z.id.
Qed.

Lemma rem_length (l : list song) (a : nat) :
  l ≠ [] →
  rem (Num (Z.of_nat a)) (length_of l) = Num (Z.of_nat (a mod length l)).
Proof.
  intros Hl. unfold rem, length_of.
  assert (0 < length l)%nat by (destruct l; [done | simpl; lia]).
  rewrite decide_False by lia.
  rewrite Z.rem_mod_nonneg by lia. by rewrite Nat2Z.inj_mod.
Qed.

Lemma next_state (st : state) (i : nat) (s : song) :
  currentSongIndex st = Num (Z.of_nat i) → songs st !! i = Some s →
  handleNextSong st
  = mkState (songs st) (songs st !! ((i + 1) mod length (songs st))%nat)
      (Num (Z.of_nat ((i + 1) mod length (songs st)))).
Proof.
  intros Hidx Hs. unfold handleNextSong. rewrite Hidx.
  assert (songs st ≠ []) by (intros Hnil; by rewrite Hnil in Hs).
  replace (add (Num (Z.of_nat i)) (Num 1)) with (Num (Z.of_nat (i + 1)))
    by (simpl; f_equal; lia).
  rewrite rem_length by done. by rewrite at_index_nat.
Qed.

Lemma previous_state (st : state) (i : nat) (s : song) :
  currentSongIndex st = Num (Z.of_nat i) → songs st !! i = Some s →
  handlePreviousSong st
  = mkState (songs st)
      (songs st !! ((i + length (songs st) - 1) mod length (songs st))%nat)
      (Num (Z.of_nat ((i + length (songs st) - 1) mod length (songs st)))).
Proof.
  intros Hidx Hs. unfold handlePreviousSong. rewrite Hidx.
  assert (songs st ≠ []) by (intros Hnil; by rewrite Hnil in Hs).
  assert (0 < length (songs st))%nat
    by (destruct (songs st); [done | simpl; lia]).
  replace (add (sub (Num (Z.of_nat i)) (Num 1)) (length_of (songs st)))
    with (Num (Z.of_nat (i + length (songs st) - 1)))
    by (unfold length_of; simpl; f_equal; lia).
  rewrite rem_length by done. by rewrite at_index_nat.
Qed.

Lemma act_in_sync (st : state) (a : action) : in_sync st → in_sync (act st a).
Proof.
  intros Hst. destruct a as [i | |]; simpl.
  - destruct (take 10 (songs st) !! i) as [s |] eqn:Hcard; [| done].
    apply lookup_take_Some in Hcard as [Hs _].
    unfold in_sync, handlePlay. simpl. eauto.
  - unfold in_sync in Hst.
    destruct (currentSong st) as [s |] eqn:Hcur; [| by unfold in_sync; rewrite Hcur].
    destruct Hst as (i & Hidx & Hs).
    rewrite (next_state st i s Hidx Hs). unfold in_sync.
    cbn [currentSong currentSongIndex songs].
    destruct (songs st !! ((i + 1) mod length (songs st))%nat)
      as [s' |] eqn:Hs'; [| done].
    by eexists.
  - unfold in_sync in Hst.
    destruct (currentSong st) as [s |] eqn:Hcur; [| by unfold in_sync; rewrite Hcur].
    destruct Hst as (i & Hidx & Hs).
    rewrite (previous_state st i s Hidx Hs). unfold in_sync.
    cbn [currentSong currentSongIndex songs].
    destruct (songs st !! ((i + length (songs st) - 1) mod length (songs st))%nat)
      as [s' |] eqn:Hs'; [| done].
    by eexists.
Qed.

(** X20.  Whatever list of songs is loaded and whatever the user does
    (play a card, next, previous), the player, when shown, shows the song
    at the current index of the list, and that index is in range. *)
Theorem carousel_in_sync (l : list song) (actions : list action) :
  in_sync (foldl act (setSongs l initial) actions)
  ∧ songs (foldl act (setSongs l initial) actions) = l.
Proof.
  assert (Hgen : ∀ st, in_sync st →
            in_sync (foldl act st actions)
            ∧ songs (foldl act st actions) = songs st).
  { induction actions as [| a actions IH]; intros st Hst; [done |].
    simpl. destruct (IH (act st a) (act_in_sync st a Hst)) as [Hsync Hsongs].
    split; [done |]. rewrite Hsongs.
    destruct a; simpl; repeat case_match; done. }
  apply (Hgen (setSongs l initial)). exact I.
Qed.

(** X21.  While the player shows the song at the current index, previous
    undoes next and next undoes previous: either way the state is what it
    was. *)
Theorem next_previous_inverse (st : state) :
  in_sync st → is_Some (currentSong st) →
  handlePreviousSong (handleNextSong st) = st
  ∧ handleNextSong (handlePreviousSong st) = st.
Proof.
  intros Hst [s Hcur]. unfold in_sync in Hst. rewrite Hcur in Hst.
  destruct Hst as (i & Hidx & Hs).
  pose proof (lookup_lt_Some _ _ _ Hs) as Hlt.
  set (n := length (songs st)) in *.
  split.
  - rewrite (next_state st i s Hidx Hs). fold n.
    assert (Hj : ((i + 1) mod n < n)%nat) by (apply Nat.mod_upper_bound; lia).
    destruct (lookup_lt_is_Some_2 (songs st) _ Hj) as [s' Hs'].
    rewrite (previous_state _ ((i + 1) mod n) s'); [| done | done].
    simpl. fold n.
    assert (Heq : (((i + 1) mod n + n - 1) mod n = i)%nat).
    { rewrite pred_mod by done. rewrite succ_mod by done.
      repeat case_decide; lia. }
    rewrite Heq, Hs. destruct st. simpl in *. by subst.
  - rewrite (previous_state st i s Hidx Hs). fold n.
    assert (Hj : ((i + n - 1) mod n < n)%nat) by (apply Nat.mod_upper_bound; lia).
    destruct (lookup_lt_is_Some_2 (songs st) _ Hj) as [s' Hs'].
    rewrite (next_state _ ((i + n - 1) mod n) s'); [| done | done].
    simpl. fold n.
    assert (Heq : (((i + n - 1) mod n + 1) mod n = i)%nat).
    { rewrite succ_mod by done. rewrite pred_mod by done.
      repeat case_decide; lia. }
    rewrite Heq, Hs. destruct st. simpl in *. by subst.
Qed.

Lemma iter_next (st : state) (i : nat) (s : song) (k : nat) :
  currentSongIndex st = Num (Z.of_nat i) → songs st !! i = Some s →
  Nat.iter (S k) handleNextSong st
  = mkState (songs st) (songs st !! ((i + S k) mod length (songs st))%nat)
      (Num (Z.of_nat ((i + S k) mod length (songs st)))).
Proof.
  intros Hidx Hs. pose proof (lookup_lt_Some _ _ _ Hs) as Hlt.
  induction k as [| k IH].
  - simpl. by rewrite (next_state st i s Hidx Hs).
  - change (Nat.iter (S (S k)) handleNextSong st)
      with (handleNextSong (Nat.iter (S k) handleNextSong st)).
    rewrite IH.
    assert (Hj : ((i + S k) mod length (songs st) < length (songs st))%nat)
      by (apply Nat.mod_upper_bound; lia).
    destruct (lookup_lt_is_Some_2 (songs st) _ Hj) as [s' Hs'].
    rewrite (next_state _ ((i + S k) mod length (songs st)) s'); [| done | done].
    simpl. rewrite Nat.Div0.add_mod_idemp_l.
    by replace (i + S k + 1)%nat with (i + S (S k))%nat by lia.
Qed.

(** X22.  Next goes round the list: while the player shows the song at
    the current index, pressing next as many times as there are songs
    brings back the same state. *)
Theorem next_goes_round (st : state) :
  in_sync st → is_Some (currentSong st) →
  Nat.iter (length (songs st)) handleNextSong st = st.
Proof.
  intros Hst [s Hcur]. unfold in_sync in Hst. rewrite Hcur in Hst.
  destruct Hst as (i & Hidx & Hs).
  pose proof (lookup_lt_Some _ _ _ Hs) as Hlt.
  destruct (length (songs st)) as [| k] eqn:Hlen; [lia |].
  rewrite (iter_next st i s k Hidx Hs). rewrite Hlen.
  replace (i + S k)%nat with (i + 1 * S k)%nat by lia.
  rewrite Nat.Div0.mod_add, Nat.mod_small by lia.
  rewrite Hs. destruct st. simpl in *. by subst.
Qed.
End Carousel.

Lemma next_previous_inverse_witness :
  SongCarousel.handlePreviousSong
    (SongCarousel.handleNextSong CarouselSample.playing)
  = CarouselSample.playing
  ∧ SongCarousel.handleNextSong
      (SongCarousel.handlePreviousSong CarouselSample.playing)
    = CarouselSample.playing.
Proof.
  apply (next_previous_inverse CarouselSample.playing).
  - exists 1%nat. split; reflexivity.
  - by eexists.
Defined.

Lemma next_goes_round_witness :
  Nat.iter 3 SongCarousel.handleNextSong CarouselSample.playing
  = CarouselSample.playing.
Proof.
  apply (next_goes_round CarouselSample.playing).
  - exists 1%nat. split; reflexivity.
  - by eexists.
Defined.

(** ** The session in the browser *)

(** X23.  The session in [localStorage] follows login and logout: after
    a login that succeeded, [Navbar] shows the user logged in exactly when
    the token is not empty, under the username that was typed, and
    [HeroSection] greets exactly when that username is not empty; after
    [handleLogout], [Navbar] shows nobody logged in and [HeroSection] does
    not greet, whatever the storage held, and every other key of the
    storage is what it was. *)
Theorem login_then_logout (username token : string) (hour : Z)
    (localStorage : gmap string string) :
  let after_login :=
    (Session.handleLogin username (Session.Responded true token)
       localStorage).1 in
  let after_logout := (Session.handleLogout after_login).1 in
  Session.navbar_mount after_login = (bool_decide (token ≠ ""), username)
  ∧ (Session.hero_mount hour after_login = "" ↔ username = "")
  ∧ Session.navbar_mount after_logout = (false, "")
  ∧ Session.hero_mount hour after_logout = ""
  ∧ ∀ k, k ≠ "token" → k ≠ "username" →
      after_logout !! k = localStorage !! k.
Proof.
  simpl. unfold Session.navbar_mount, Session.hero_mount.
  rewrite lookup_insert_eq.
  rewrite lookup_insert_ne, lookup_insert_eq by done.
  rewrite lookup_delete_eq.
  rewrite lookup_delete_ne, lookup_delete_eq by done.
  split_and!.
  - destruct token, username; done.
  - destruct username; [done |].
    split; [| done]. repeat case_decide; done.
  - done.
  - done.
  - intros k Ht Hu.
    rewrite !lookup_delete_ne, !lookup_insert_ne by done. done.
Qed.


(** ** Facts about the handlers on requests as they arrive *)

Section HttpFacts.
Context `{!Cast, !jwt.Jws, !bcrypt.Impl, !ProcessEnv}.

(** Where the casts succeed, the password is a string and the secret is
    set, the handlers are those of [AuthRoutes] and [PlaylistRoutes]. *)
Lemma login_cast (now : Z) (req : Http.t) (db : DB) (pw : string) :
  Http.password (Http.body req) = Some pw → JWT_SECRET ≠ "" →
  Http.login now req db = AuthRoutes.login now (Http.cast_request "" [] req) db.
Proof.
  intros Hpw Hsecret. unfold Http.login, AuthRoutes.login. simpl.
  rewrite Hpw. simpl. destruct (User.findOne _ _); [| done].
  destruct (bcrypt.compare _ _); [| done]. by rewrite decide_False.
Qed.

Lemma addSongs_cast (req : Http.t) (db : DB) (id : ObjectId)
    (ss : list ObjectId) :
  castObjectId (Http.playlistId req) = Some id →
  mapM castObjectId (Http.songs (Http.body req)) = Some ss →
  Http.addSongs req db = PlaylistRoutes.addSongs (Http.cast_request id ss req) db.
Proof. intros Hid Hss. unfold Http.addSongs. by rewrite Hid, Hss. Qed.

Lemma delete_cast (req : Http.t) (db : DB) (id : ObjectId) :
  castObjectId (Http.playlistId req) = Some id →
  Http.delete req db = PlaylistRoutes.delete (Http.cast_request id [] req) db.
Proof. intros Hid. unfold Http.delete. by rewrite Hid. Qed.

Lemma create_cast (newId : ObjectId) (req : Http.t) (db : DB)
    (ss : list ObjectId) :
  mapM castObjectId (Http.songs (Http.body req)) = Some ss →
  Http.create newId req db
  = PlaylistRoutes.create newId (Http.cast_request "" ss req) db.
Proof.
  intros Hss. unfold Http.create, PlaylistRoutes.create. simpl. rewrite Hss.
  destruct (Http.user req); [| done].
  case_decide as Hname; [| done].
  unfold Playlist.save, Playlist.validate. simpl. by rewrite decide_True.
Qed.

(** C6 (as amended).  For a password that is a string, [login] with an
    unknown username and [login] with a password that [compare] rejects
    for a stored username get the same response, 400
    [Invalid credentials], and the store is untouched.  An unknown
    username gets that response whatever the password field is; for a
    stored username and a password that is missing or not a string,
    [compare] throws and nothing is sent. *)
Theorem login_failures_indistinguishable (now : Z) (req : Http.t) (db : DB) :
  (∀ pw, Http.password (Http.body req) = Some pw →
     (User.findOne (Http.username (Http.body req)) (users db) = None
      ∨ ∃ u, User.findOne (Http.username (Http.body req)) (users db) = Some u
             ∧ bcrypt.compare pw (User.password u) = false) →
     Http.login now req db
     = (Sent {| status := 400; json := Message "Invalid credentials" |}, db))
  ∧ (User.findOne (Http.username (Http.body req)) (users db) = None →
     Http.login now req db
     = (Sent {| status := 400; json := Message "Invalid credentials" |}, db))
  ∧ (∀ u, User.findOne (Http.username (Http.body req)) (users db) = Some u →
       Http.password (Http.body req) = None →
       Http.login now req db = (Thrown (LibraryError "bcrypt"), db)).
Proof.
  unfold Http.login. split_and!.
  - intros pw -> [-> | (u & -> & ->)]; reflexivity.
  - by intros ->.
  - by intros u -> ->.
Qed.

(** C9.  Whoever the authenticated caller is, and whoever owns the
    playlist, [addSongs] on a stored playlist answers 200 with the
    playlist expanded and stores it with the songs it had and the songs
    of the request, and [delete] answers 200 and removes the playlist; the
    caller's identity plays no part in either handler, whatever the
    request. *)
Theorem mutation_ignores_owner (req : Http.t) (caller : jwt.payload)
    (id : ObjectId) (ss : list ObjectId) (p : Playlist.doc) (db : DB) :
  Http.user req = Some caller →
  castObjectId (Http.playlistId req) = Some id →
  mapM castObjectId (Http.songs (Http.body req)) = Some ss →
  Playlist.findById id (playlists db) = Some p →
  ids_distinct db →
  (∃ p' db',
     Http.addSongs req db
     = (Sent {| status := 200;
                json := PlaylistOrNull
                          (Some (Playlist.populate (songs db) p')) |},
        db')
     ∧ Playlist.findById id (playlists db') = Some p'
     ∧ (∀ x, x ∈ Playlist.songs p' ↔ x ∈ Playlist.songs p ∨ x ∈ ss)
     ∧ Playlist.userId p' = Playlist.userId p)
  ∧ (∃ db',
       Http.delete req db
       = (Sent {| status := 200;
                  json := Message "Playlist deleted successfully!" |}, db')
       ∧ Playlist.findById id (playlists db') = None
       ∧ length (playlists db) = S (length (playlists db')))
  ∧ ∀ other : option jwt.payload,
      Http.addSongs (Http.set_user other req) db = Http.addSongs req db
      ∧ Http.delete (Http.set_user other req) db = Http.delete req db.
Proof.
  intros _ Hid Hss Hp Hids. split_and!.
  - destruct (findByIdAndUpdate_found id (Playlist.addToSet ss) _ p Hp)
      as (c' & Hc' & Hfind); [done |].
    exists (Playlist.addToSet ss p), (PlaylistRoutes.with_playlists c' db).
    rewrite (addSongs_cast req db id ss Hid Hss).
    unfold PlaylistRoutes.addSongs. simpl. rewrite Hc'.
    split_and!; [done | done | | done].
    intros x. simpl. apply elem_of_addToSet_each.
  - destruct (findByIdAndDelete_found _ _ _ Hp Hids) as (c' & Hc' & Hnone & Hlen).
    exists (PlaylistRoutes.with_playlists c' db).
    rewrite (delete_cast req db id Hid).
    unfold PlaylistRoutes.delete. simpl. rewrite Hc'. done.
  - intros other. unfold Http.addSongs, Http.delete. simpl.
    destruct (castObjectId _); [| done].
    split; [| done]. by destruct (mapM _ _).
Qed.

(** C10 (as amended).  For a request that passed the middleware and
    whose playlist id casts to an ObjectId the store does not hold,
    [PUT /:playlistId/songs] with song ids that cast answers 200 with a
    [null] body and [DELETE /:playlistId] answers 200 with the success
    message; the store is left as it was. *)
Theorem missing_playlist_is_200 (now : Z) (req : Http.t) (req' : Req.t)
    (id : ObjectId) (db : DB) :
  authMiddleware now (Http.headers req) = Next req' →
  castObjectId (Http.playlistId req) = Some id →
  Playlist.findById id (playlists db) = None →
  (∀ ss, mapM castObjectId (Http.songs (Http.body req)) = Some ss →
     Http.protected Http.addSongs now req db
     = (Sent {| status := 200; json := PlaylistOrNull None |}, db))
  ∧ Http.protected Http.delete now req db
    = (Sent {| status := 200; json := Message "Playlist deleted successfully!" |},
       db).
Proof.
  intros Hauth Hid Hnone. unfold Http.protected. rewrite Hauth. split.
  - intros ss Hss.
    rewrite (addSongs_cast _ db id ss) by done.
    unfold PlaylistRoutes.addSongs. simpl.
    rewrite findByIdAndUpdate_missing by done. by destruct db.
  - rewrite (delete_cast _ db id) by done.
    unfold PlaylistRoutes.delete. simpl.
    rewrite findByIdAndDelete_missing by done. by destruct db.
Qed.

(** X5.  A playlist that [create] stored is what its creator lists next:
    for a caller the middleware identified, a non-empty name, song ids
    that cast and a fresh [_id], [create] answers 201 with the new
    playlist, the creator's next listing is the former listing followed
    by the new playlist, and the listing of every other user is what it
    was. *)
Theorem create_then_list (newId : ObjectId) (req : Http.t) (u : jwt.payload)
    (ss : list ObjectId) (db : DB) :
  Http.user req = Some u →
  Http.name (Http.body req) ≠ "" →
  mapM castObjectId (Http.songs (Http.body req)) = Some ss →
  newId ∉ Playlist._id <$> playlists db →
  let np := Playlist.mk newId (Http.name (Http.body req)) (jwt.userId u) ss in
  ∃ db',
    Http.create newId req db
    = (Sent {| status := 201;
               json := MessagePlaylist "Playlist created successfully!" np |},
       db')
    ∧ (∀ lreq, Req.user lreq = Some u →
         PlaylistRoutes.listForOwner lreq db'
         = (Sent {| status := 200;
                    json := Playlists
                              ((Playlist.populate (songs db)
                                  <$> Playlist.find (jwt.userId u) (playlists db))
                               ++ [Playlist.populate (songs db) np]) |},
            db'))
    ∧ ∀ req2 u2, Req.user req2 = Some u2 → jwt.userId u2 ≠ jwt.userId u →
        (PlaylistRoutes.listForOwner req2 db').1
        = (PlaylistRoutes.listForOwner req2 db).1.
Proof.
  intros Hu Hname Hss Hid np.
  exists (PlaylistRoutes.with_playlists (playlists db ++ [np]) db).
  split_and!.
  - rewrite (create_cast newId req db ss Hss).
    unfold PlaylistRoutes.create, Playlist.save, Playlist.validate.
    simpl. rewrite Hu. fold np. simpl.
    rewrite decide_False by done. by rewrite bool_decide_false.
  - intros lreq Hl.
    unfold PlaylistRoutes.listForOwner, Playlist.find. rewrite Hl. simpl.
    rewrite filter_app, filter_cons, decide_True by done.
    by rewrite fmap_app.
  - intros req2 u2 Hu2 Hne.
    unfold PlaylistRoutes.listForOwner, Playlist.find. rewrite Hu2. simpl.
    rewrite filter_app, filter_cons, decide_False by (simpl; congruence).
    by rewrite filter_nil, app_nil_r.
Qed.

(** X9.  Once a playlist id was the target of [delete] in a store with
    distinct ids, the id is gone: a further [delete] of an id that casts
    to the same ObjectId answers 200 and changes nothing, and [addSongs]
    to it, with song ids that cast, answers 200 with [null] and changes
    nothing. *)
Theorem delete_then_missing (req req2 : Http.t) (id : ObjectId)
    (ss : list ObjectId) (db : DB) :
  ids_distinct db →
  castObjectId (Http.playlistId req) = Some id →
  castObjectId (Http.playlistId req2) = Some id →
  mapM castObjectId (Http.songs (Http.body req2)) = Some ss →
  Http.delete req2 (Http.delete req db).2
  = (Sent {| status := 200; json := Message "Playlist deleted successfully!" |},
     (Http.delete req db).2)
  ∧ Http.addSongs req2 (Http.delete req db).2
    = (Sent {| status := 200; json := PlaylistOrNull None |},
       (Http.delete req db).2).
Proof.
  intros Hnd Hid Hid2 Hss.
  assert (Hgone : Playlist.findById id (playlists (Http.delete req db).2) = None).
  { pose proof (findByIdAndDelete_gone id (playlists db) Hnd) as Hgone.
    rewrite (delete_cast req db id Hid). unfold PlaylistRoutes.delete. simpl.
    by destruct (Playlist.findByIdAndDelete _ (playlists db)) as [r c']. }
  revert Hgone. generalize (Http.delete req db).2. intros db1 Hgone.
  rewrite (delete_cast req2 db1 id Hid2), (addSongs_cast req2 db1 id ss Hid2 Hss).
  unfold PlaylistRoutes.delete, PlaylistRoutes.addSongs. simpl.
  rewrite findByIdAndDelete_missing, findByIdAndUpdate_missing by done.
  by destruct db1.
Qed.

(** X15.  [login] never changes the store.  It answers 200 with a token
    signed for the stored user exactly when the username is found, the
    password is a string that [compare] accepts and the secret is set; it
    answers 400 [Invalid credentials] when the username is unknown or
    [compare] rejects the password; and it throws, answering nothing,
    exactly when the username is stored and the password is missing or
    not a string, or when the credentials are right and the secret is
    empty or not set. *)
Theorem login_outcome (now : Z) (req : Http.t) (db : DB) :
  (Http.login now req db).2 = db
  ∧ match (Http.login now req db).1 with
    | Sent r =>
        (∃ u pw,
           User.findOne (Http.username (Http.body req)) (users db) = Some u
           ∧ Http.password (Http.body req) = Some pw
           ∧ bcrypt.compare pw (User.password u) = true
           ∧ JWT_SECRET ≠ ""
           ∧ r = {| status := 200;
                    json := MessageToken "Login successful!"
                              (jwt.sign now (User._id u) (User.username u)
                                 JWT_SECRET) |})
        ∨ (r = {| status := 400; json := Message "Invalid credentials" |}
           ∧ (User.findOne (Http.username (Http.body req)) (users db) = None
              ∨ ∃ u pw,
                  User.findOne (Http.username (Http.body req)) (users db)
                  = Some u
                  ∧ Http.password (Http.body req) = Some pw
                  ∧ bcrypt.compare pw (User.password u) = false))
    | Thrown e =>
        ∃ u, User.findOne (Http.username (Http.body req)) (users db) = Some u
             ∧ ((Http.password (Http.body req) = None
                 ∧ e = LibraryError "bcrypt")
                ∨ (∃ pw, Http.password (Http.body req) = Some pw
                         ∧ bcrypt.compare pw (User.password u) = true
                         ∧ JWT_SECRET = ""
                         ∧ e = LibraryError "jsonwebtoken"))
    end.
Proof.
  unfold Http.login.
  destruct (User.findOne _ _) as [u |] eqn:Hu.
  - destruct (Http.password _) as [pw |] eqn:Hpw.
    + destruct (bcrypt.compare _ _) eqn:Hcmp.
      * case_decide as Hsecret; simpl.
        -- split; [done |]. exists u. split; [done |]. right.
           exists pw. done.
        -- split; [done |]. left. exists u, pw. done.
      * simpl. split; [done |]. right. split; [done |]. right.
        exists u, pw. done.
    + simpl. split; [done |]. exists u. split; [done |]. by left.
  - simpl. split; [done |]. right. split; [done |]. by left.
Qed.

(** X24.  The login page against the login route of a server whose secret
    is set: the route always answers; when the username is stored and
    [compare] accepts the password, the page stores the token the route
    issued and the typed username and shows no error; otherwise it leaves
    [localStorage] as it was, so an earlier session stays, and shows
    [Login failed! Invalid credentials.] *)
Theorem client_login (now : Z) (username password : string) (db : DB)
    (localStorage : gmap string string) :
  JWT_SECRET ≠ "" →
  ∃ r, Session.fetch_login now username password db = Some r
       ∧ ((∃ u, User.findOne username (users db) = Some u
                ∧ bcrypt.compare password (User.password u) = true
                ∧ Session.handleLogin username r localStorage
                  = (<["username" := username]>
                       (<["token" := jwt.sign now (User._id u)
                                       (User.username u) JWT_SECRET]>
                          localStorage),
                     None))
          ∨ ((¬ ∃ u, User.findOne username (users db) = Some u
                     ∧ bcrypt.compare password (User.password u) = true)
             ∧ Session.handleLogin username r localStorage
               = (localStorage, Some "Login failed! Invalid credentials."))).
Proof.
  intros Hsecret. unfold Session.fetch_login, Http.login. simpl.
  destruct (User.findOne username (users db)) as [u |] eqn:Hu.
  - destruct (bcrypt.compare password (User.password u)) eqn:Hcmp; simpl.
    + rewrite decide_False by done. simpl.
      eexists. split; [done |]. left. exists u. done.
    + eexists. split; [done |]. right. split; [| done].
      intros (u' & [= <-] & Hc). congruence.
  - eexists. split; [done |]. right. split; [| done].
    by intros (u' & ? & _).
Qed.
End HttpFacts.

Lemma login_failures_indistinguishable_witness :
  @Http.login Reference.Jws Reference.Bcrypt Reference.Env
    5000 (HttpSample.credentials "alice" (Some "wrong")) HttpSample.db
  = (Sent {| status := 400; json := Message "Invalid credentials" |},
     HttpSample.db)
  ∧ @Http.login Reference.Jws Reference.Bcrypt Reference.Env 5000
      (HttpSample.credentials "nobody" (Some "pw1")) HttpSample.db
    = (Sent {| status := 400; json := Message "Invalid credentials" |},
       HttpSample.db).
Proof.
  split.
  - apply (proj1 (@login_failures_indistinguishable Reference.Jws
                    Reference.Bcrypt Reference.Env 5000
                    (HttpSample.credentials "alice" (Some "wrong"))
                    HttpSample.db) "wrong" eq_refl).
    right. exists (User.mk HttpSample.alice_id "alice" "salt$pw1").
    split; reflexivity.
  - apply (proj1 (@login_failures_indistinguishable Reference.Jws
                    Reference.Bcrypt Reference.Env 5000
                    (HttpSample.credentials "nobody" (Some "pw1"))
                    HttpSample.db) "pw1" eq_refl).
    left. reflexivity.
Defined.

(** C6 (as stated) fails: with the password field missing, [login] for a
    stored username throws and sends nothing, while [login] for an unknown
    username answers 400; the two causes are told apart. *)
Lemma missing_password_distinguishes :
  @Http.login Reference.Jws Reference.Bcrypt Reference.Env
    5000 (HttpSample.credentials "alice" None) HttpSample.db
  = (Thrown (LibraryError "bcrypt"), HttpSample.db)
  ∧ @Http.login Reference.Jws Reference.Bcrypt Reference.Env 5000
      (HttpSample.credentials "nobody" None) HttpSample.db
    = (Sent {| status := 400; json := Message "Invalid credentials" |},
       HttpSample.db).
Proof. split; vm_compute; reflexivity. Qed.

Lemma mutation_ignores_owner_witness :
  Playlist.userId HttpSample.chill ≠ jwt.userId HttpSample.bob
  ∧ (∃ p' db',
       @Http.addSongs ReferenceCast.instance
         (HttpSample.request (Some HttpSample.bob) "00000000000000000000A001"
            "" ["00000000000000000000B009"])
         HttpSample.db
       = (Sent {| status := 200;
                  json := PlaylistOrNull
                            (Some (Playlist.populate
                                     [HttpSample.intro; HttpSample.finale] p')) |},
          db')
       ∧ Playlist.findById HttpSample.chill_id (playlists db') = Some p'
       ∧ HttpSample.song9 ∈ Playlist.songs p')
  ∧ (∃ db',
       @Http.delete ReferenceCast.instance
         (HttpSample.request (Some HttpSample.bob) "00000000000000000000A001"
            "" ["00000000000000000000B009"])
         HttpSample.db
       = (Sent {| status := 200;
                  json := Message "Playlist deleted successfully!" |}, db')
       ∧ Playlist.findById HttpSample.chill_id (playlists db') = None).
Proof.
  destruct (@mutation_ignores_owner ReferenceCast.instance
              (HttpSample.request (Some HttpSample.bob)
                 "00000000000000000000A001" "" ["00000000000000000000B009"])
              HttpSample.bob HttpSample.chill_id [HttpSample.song9]
              HttpSample.chill HttpSample.db eq_refl)
    as ((p' & db1 & Hadd & Hfind & Hin & _) & (db2 & Hdel & Hnone & _) & _).
  - vm_compute. reflexivity.
  - vm_compute. reflexivity.
  - vm_compute. reflexivity.
  - apply NoDup_singleton.
  - split_and!.
    + discriminate.
    + exists p', db1. split_and!; [exact Hadd | exact Hfind |].
      apply Hin. right. apply list_elem_of_here.
    + exists db2. split; [exact Hdel | exact Hnone].
Defined.

(** The response to bob's [addSongs] on alice's playlist shows the song
    that was added. *)
Example addSongs_by_another_user :
  (@Http.addSongs ReferenceCast.instance
     (HttpSample.request (Some HttpSample.bob) "00000000000000000000A001"
        "" ["00000000000000000000B009"])
     HttpSample.db).1
  = Sent {| status := 200;
            json := PlaylistOrNull
                      (Some (Playlist.mkPopulated HttpSample.chill_id "Chill"
                               HttpSample.alice_id
                               [HttpSample.intro; HttpSample.finale])) |}.
Proof. vm_compute. reflexivity. Qed.

Lemma missing_playlist_is_200_witness :
  let req := HttpSample.arriving HttpSample.bearer "00000000000000000000A0FF"
               "" ["00000000000000000000B009"] in
  @Http.protected Reference.Jws Reference.Env
    (@Http.addSongs ReferenceCast.instance) 5000 req HttpSample.db
  = (Sent {| status := 200; json := PlaylistOrNull None |}, HttpSample.db)
  ∧ @Http.protected Reference.Jws Reference.Env
      (@Http.delete ReferenceCast.instance) 5000 req HttpSample.db
    = (Sent {| status := 200; json := Message "Playlist deleted successfully!" |},
       HttpSample.db).
Proof.
  destruct (@missing_playlist_is_200 ReferenceCast.instance Reference.Jws
              Reference.Env 5000
              (HttpSample.arriving HttpSample.bearer "00000000000000000000A0FF"
                 "" ["00000000000000000000B009"])
              (Req.set_user HttpSample.alice
                 (Http.headers
                    (HttpSample.arriving HttpSample.bearer
                       "00000000000000000000A0FF" ""
                       ["00000000000000000000B009"])))
              "00000000000000000000a0ff" HttpSample.db)
    as [Hput Hdel].
  - vm_compute. reflexivity.
  - vm_compute. reflexivity.
  - vm_compute. reflexivity.
  - split; [| exact Hdel].
    apply (Hput [HttpSample.song9]). vm_compute. reflexivity.
Defined.

(** C10 (as stated) fails: [nowhere] is an id the store does not hold,
    and for it both routes throw a [CastError] and send nothing. *)
Lemma uncastable_id_throws :
  let req := HttpSample.arriving HttpSample.bearer "nowhere" ""
               ["00000000000000000000B009"] in
  ("nowhere" ∉ Playlist._id <$> playlists HttpSample.db)
  ∧ @Http.protected Reference.Jws Reference.Env
      (@Http.addSongs ReferenceCast.instance) 5000 req HttpSample.db
    = (Thrown (CastError "_id"), HttpSample.db)
  ∧ @Http.protected Reference.Jws Reference.Env
      (@Http.delete ReferenceCast.instance) 5000 req HttpSample.db
    = (Thrown (CastError "_id"), HttpSample.db).
Proof.
  split_and!; [| vm_compute; reflexivity | vm_compute; reflexivity].
  intros Hin. apply list_elem_of_singleton in Hin. discriminate.
Qed.

Lemma create_then_list_witness :
  ∃ db',
    @Http.create ReferenceCast.instance "00000000000000000000a002"
      (HttpSample.request (Some HttpSample.alice) "" "Mix"
         ["00000000000000000000B009"])
      HttpSample.db
    = (Sent {| status := 201;
               json := MessagePlaylist "Playlist created successfully!"
                         (Playlist.mk "00000000000000000000a002" "Mix"
                            HttpSample.alice_id [HttpSample.song9]) |},
       db')
    ∧ PlaylistRoutes.listForOwner
        (Sample.request (Some HttpSample.alice) "" "" []) db'
      = (Sent {| status := 200;
                 json := Playlists
                           [Playlist.mkPopulated HttpSample.chill_id "Chill"
                              HttpSample.alice_id [HttpSample.intro];
                            Playlist.mkPopulated "00000000000000000000a002"
                              "Mix" HttpSample.alice_id [HttpSample.finale]] |},
         db').
Proof.
  destruct (@create_then_list ReferenceCast.instance
              "00000000000000000000a002"
              (HttpSample.request (Some HttpSample.alice) "" "Mix"
                 ["00000000000000000000B009"])
              HttpSample.alice [HttpSample.song9] HttpSample.db eq_refl)
    as (db' & Hcreate & Hlist & _).
  - discriminate.
  - vm_compute. reflexivity.
  - intros Hin. apply list_elem_of_singleton in Hin. discriminate.
  - exists db'. split; [exact Hcreate |].
    apply (Hlist (Sample.request (Some HttpSample.alice) "" "" []) eq_refl).
Defined.

Lemma delete_then_missing_witness :
  let gone :=
    (@Http.delete ReferenceCast.instance
       (HttpSample.request (Some HttpSample.bob) "00000000000000000000A001" "" [])
       HttpSample.db).2 in
  @Http.delete ReferenceCast.instance
    (HttpSample.request (Some HttpSample.alice) "00000000000000000000a001" "" [])
    gone
  = (Sent {| status := 200; json := Message "Playlist deleted successfully!" |},
     gone)
  ∧ @Http.addSongs ReferenceCast.instance
      (HttpSample.request (Some HttpSample.alice) "00000000000000000000a001" "" [])
      gone
    = (Sent {| status := 200; json := PlaylistOrNull None |}, gone).
Proof.
  apply (@delete_then_missing ReferenceCast.instance
           (HttpSample.request (Some HttpSample.bob)
              "00000000000000000000A001" "" [])
           (HttpSample.request (Some HttpSample.alice)
              "00000000000000000000a001" "" [])
           HttpSample.chill_id [] HttpSample.db).
  - apply NoDup_singleton.
  - vm_compute. reflexivity.
  - vm_compute. reflexivity.
  - reflexivity.
Defined.

Lemma client_login_witness :
  ∃ r, Session.fetch_login (H := Reference.Jws) (H0 := Reference.Bcrypt)
         (H1 := Reference.Env) 5000 "alice" "pw1" HttpSample.db = Some r
       ∧ Session.handleLogin "alice" r ∅
         = (<["username" := "alice"]> (<["token" := HttpSample.token]> ∅), None).
Proof.
  destruct (@client_login Reference.Jws Reference.Bcrypt Reference.Env 5000
              "alice" "pw1" HttpSample.db ∅)
    as (r & Hr & [(u & Hu & _ & Hstore) | [Hno _]]).
  - discriminate.
  - exists r. split; [exact Hr |].
    injection Hu as <-. exact Hstore.
  - exfalso. apply Hno.
    exists (User.mk HttpSample.alice_id "alice" "salt$pw1").
    split; reflexivity.
Defined.

(** With the secret not set, a login with the right credentials is not
    answered, and the page gets no response. *)
Example login_without_secret :
  @Http.login Reference.Jws Reference.Bcrypt HttpSample.NoSecret 5000
    (HttpSample.credentials "alice" (Some "pw1")) HttpSample.db
  = (Thrown (LibraryError "jsonwebtoken"), HttpSample.db)
  ∧ Session.fetch_login (H := Reference.Jws) (H0 := Reference.Bcrypt)
      (H1 := HttpSample.NoSecret) 5000 "alice" "pw1" HttpSample.db = None.
Proof. split; vm_compute; reflexivity. Qed.
